(** * gidari: the fetch / chunk / store pipeline of [internal/transport]

    A shallow embedding of [transport.go] (the chunker, [newFetchConfig],
    the two workers and the flattening loop of [Upsert]) and of the later
    [Request] methods ([newFetchConfig], [flatten], [flattenTimeseries]),
    followed by the properties of the pipeline specification stated over
    these definitions.

    Conventions.
    - A Go call either returns, panics, ends the process through
      [logrus.Logger.Fatal], or (for the one unbounded loop) has not finished
      within the fuel it was given: type [result].
    - A Go result [(T, error)] is a pair whose second component is
      [None] for a nil error where both components matter ([chunks],
      [connect], a payload with its error), and a sum where the code
      returns either a value or an error. A pointer or a map that may be
      nil is an [option].
    - [map[string]string] and [url.Values] are finite maps ([gmap]).
    - A request of [cfg.Requests] is passed around as a pointer; the code
      that writes through the pointer takes the request and returns it as
      the writes leave it.
    - Library code ([time.Parse], [url.Parse], [web.Fetch], ...) makes up
      the class [Collaborators]; an executable instance of it serves to
      run the code on concrete inputs. *)

From Stdlib Require Import ZArith String Ascii List Lia.
From stdpp Require Import base option gmap strings list fin_maps.

Open Scope string_scope.
Open Scope Z_scope.

(** ** Outcomes of a call *)

Definition error := string.

Inductive result (A : Type) : Type :=
| Ret (a : A)
| Panic (msg : string)
| Fatal (err : error)
| NoFuel.

Arguments Ret {A} a.
Arguments Panic {A} msg.
Arguments Fatal {A} err.
Arguments NoFuel {A}.

(** Sequencing: [x ← r; k] runs [k] when [r] returned, and stops with the
    outcome of [r] otherwise. *)
#[global] Instance result_ret : MRet result := fun A a => Ret a.

#[global] Instance result_bind : MBind result := fun A B k r =>
  match r with
  | Ret a => k a
  | Panic msg => Panic msg
  | Fatal err => Fatal err
  | NoFuel => NoFuel
  end.

(** ** [strings]: the three functions the storage worker calls *)

(** [strings.TrimPrefix s prefix]. *)
Definition TrimPrefix (s pre : string) : string :=
  if String.prefix pre s
  then String.substring (String.length pre)
         (String.length s - String.length pre)%nat s
  else s.

(** [strings.Split s sep] for a separator of one byte (the worker passes
    ["/"]): [cur] holds the bytes of the current field. *)
Fixpoint Split_from (cur : string) (s : string) (sep : ascii) : list string :=
  match s with
  | EmptyString => [cur]
  | String c rest =>
      if Ascii.eqb c sep
      then cur :: Split_from EmptyString rest sep
      else Split_from (cur +:+ String c EmptyString) rest sep
  end.

Definition Split (s : string) (sep : ascii) : list string :=
  Split_from EmptyString s sep.

(** [strings.Contains s substr]. *)
Fixpoint Contains (s substr : string) : bool :=
  if String.prefix substr s then true
  else match s with
       | EmptyString => false
       | String _ rest => Contains rest substr
       end.

(** ** [time]: instants and durations

    An instant is its number of nanoseconds since the Unix epoch; the
    instants [time.Parse] yields and the loop of [chunks] reaches are far
    from the limits of [time.Time], so [Add] is plain addition. A
    [time.Duration] is an [int64] count of nanoseconds: a product of
    durations wraps around at 64 bits. *)

Definition Time := Z.
Definition Duration := Z.

Definition wrap64 (z : Z) : Z := (z + 2 ^ 63) mod 2 ^ 64 - 2 ^ 63.

Definition Second : Duration := 1000000000.

Definition Duration_mul (a b : Duration) : Duration := wrap64 (a * b).

Definition Before (t u : Time) : bool := t <? u.

Definition Add (t : Time) (d : Duration) : Time := t + d.

Definition RFC3339 : string := "2006-01-02T15:04:05Z07:00".

Definition int32_range (z : Z) : Prop := - 2 ^ 31 <= z < 2 ^ 31.

(** ** [net/url]

    [RawQuery] is kept in decoded form: [Values.Encode] followed by
    [URL.Query] gives back the same [url.Values]. *)

Abbreviation Values := (gmap string (list string)).

Record URL : Type := mkURL {
  Host : string;
  Path : string;
  RawQuery : Values
}.

(** [u.Query()]. *)
Definition URL_Query (u : URL) : Values := RawQuery u.

(** [v[key]]: indexing a Go map yields the zero value (a nil slice) for an
    absent key. *)
Definition Values_index (v : Values) (key : string) : list string :=
  default [] (v !! key).

(** [v.Set(key, value)]. *)
Definition Values_Set (v : Values) (key value : string) : Values :=
  <[key := [value]]> v.

Definition with_RawQuery (u : URL) (q : Values) : URL :=
  {| Host := Host u; Path := Path u; RawQuery := q |}.

(** ** The collaborators of the pipeline

    The library and package functions the code calls. *)

Definition bytes : Type := list Byte.byte.

Record APIKey : Type := mkAPIKey {
  Passphrase : string;
  Key : string;
  Secret : string
}.

(** A [*rate.Limiter]: [lim_id] is the identity of the allocated object,
    the other fields are the arguments of [rate.NewLimiter]. *)
Record Limiter : Type := mkLimiter {
  lim_id : nat;
  lim_every : Duration;
  lim_burst : Z
}.

(** [rate.NewLimiter(rate.Every(every), burst)] when [next] limiters have
    been allocated so far. *)
Definition NewLimiter (next : nat) (every : Duration) (burst : Z) : Limiter :=
  {| lim_id := next; lim_every := every; lim_burst := burst |}.

Class Collaborators : Type := {
  (** [*web.Client] and [repository.Generic] *)
  Client : Type;
  Repo : Type;
  (** [time.Parse layout value]: the instant, or the parse error *)
  time_Parse : string -> string -> Time + error;
  (** [t.Format(layout)] *)
  time_Format : string -> Time -> string;
  url_JoinPath : string -> string -> string + error;
  url_Parse : string -> URL + error;
  (** [u.EscapedPath()] *)
  url_EscapedPath : URL -> string;
  (** [web.NewClient] on the transport built from the URL and the key *)
  web_NewClient : string -> APIKey -> option Client * option error;
  (** [web.Fetch] on the fields of a [web.FetchConfig] *)
  web_Fetch : option Client -> string -> URL -> Limiter -> bytes * option error;
  (** [storage.New] followed by [repository.New] *)
  storage_New : string -> Repo + error;
  (** [repo.UpsertJSON(ctx, table, b, rsp)] *)
  UpsertJSON : Repo -> string -> bytes -> option error;
  (** the candles callback: decode the payload, set the product identifier
      of every candle, encode again *)
  candles_encode : string -> bytes -> bytes * option error
}.

(** ** The timeseries chunker *)

Record timeseries : Type := mkTimeseries {
  StartName : string;
  EndName : string;
  Period : Z;
  Layout : option string
}.

Definition with_Layout (ts : timeseries) (l : option string) : timeseries :=
  {| StartName := StartName ts; EndName := EndName ts;
     Period := Period ts; Layout := l |}.

(** A chunk, [[2]time.Time]: the interval from its first to its second
    component, the second excluded. *)
Definition timeRange : Type := (Time * Time)%type.

(** The [for start.Before(end)] loop of [chunks]; one unit of fuel per
    iteration, the loop test itself costs none. *)
Fixpoint chunks_loop (fuel : nat) (period : Z) (start end_ : Time)
  : result (list timeRange) :=
  if Before start end_ then
    match fuel with
    | O => NoFuel
    | S fuel' =>
        let next := Add start (Duration_mul Second period) in
        let c := if Before next end_ then (start, next) else (start, end_) in
        rest ← chunks_loop fuel' period next end_;
        Ret (c :: rest)
    end
  else Ret [].

Section Chunker.

Context `{Collaborators}.

(** The layout [chunks] parses with: it stores RFC3339 when none is set. *)
Definition default_Layout (ts : timeseries) : string :=
  match Layout ts with
  | Some l => l
  | None => RFC3339
  end.

(** [(ts *timeseries) chunks(url)]: the receiver after the call (its
    [Layout] is written when it was nil) and what the call returns. *)
Definition chunks (fuel : nat) (ts : timeseries) (url : URL)
  : timeseries * result (list timeRange * option error) :=
  let layout := default_Layout ts in
  let ts' := with_Layout ts (Some layout) in
  let query := URL_Query url in
  (ts',
   match Values_index query (StartName ts') with
   | [startValue] =>
       match time_Parse layout startValue with
       | inr err => Ret ([], Some err)
       | inl start =>
           match Values_index query (EndName ts') with
           | [endValue] =>
               match time_Parse layout endValue with
               | inr err => Ret ([], Some err)
               | inl end_ =>
                   cs ← chunks_loop fuel (Period ts') start end_;
                   Ret (cs, None)
               end
           | _ => Ret ([], Some "'endName' is required for timeseries data")
           end
       end
   | _ => Ret ([], Some "'startName' is required for timeseries data")
   end).

End Chunker.

(** ** Configuration and requests ([transport.go]) *)

Record Authentication : Type := mkAuthentication {
  apiKey : option APIKey
}.

(** A [*Request] of [cfg.Requests]. The record is the cell the pointer
    refers to, together with the map [Query] and the [*timeseries] it
    owns: [chunkReq := req] copies the pointer, so a write through
    [chunkReq] is a write to this cell. *)
Record Request : Type := mkRequest {
  Method : string;
  Endpoint : string;
  RateLimitBurstCap : Z;
  Query : option (gmap string string);
  Timeseries : option timeseries;
  Table : option string
}.

Definition with_Query (req : Request) (q : option (gmap string string)) : Request :=
  {| Method := Method req; Endpoint := Endpoint req;
     RateLimitBurstCap := RateLimitBurstCap req; Query := q;
     Timeseries := Timeseries req; Table := Table req |}.

Definition with_Timeseries (req : Request) (ts : option timeseries) : Request :=
  {| Method := Method req; Endpoint := Endpoint req;
     RateLimitBurstCap := RateLimitBurstCap req; Query := Query req;
     Timeseries := ts; Table := Table req |}.

Record RateLimitConfig : Type := mkRateLimitConfig {
  Burst : option Z;
  rl_Period : option Duration
}.

Record Config : Type := mkConfig {
  cfg_URL : string;
  cfg_Authentication : Authentication;
  DNSList : list string;
  Requests : list Request;
  cfg_RateLimitConfig : option RateLimitConfig;
  Truncate : bool
}.

(** [fmt]'s [%q] of a string without characters to escape. *)
Definition fmt_q (s : string) : string :=
  let dq := String (ascii_of_nat 34) EmptyString in dq +:+ s +:+ dq.

Definition RateLimitConfig_validate (rl : RateLimitConfig) : option error :=
  let wrapper field :=
    fmt_q field +:+ " is a required field on transport.RateLimitConfig" in
  match Burst rl with
  | None => Some (wrapper "Burst")
  | Some _ =>
      match rl_Period rl with
      | None => Some (wrapper "Period")
      | Some _ => None
      end
  end.

Definition Config_validate (cfg : Config) : option error :=
  let wrapper field :=
    fmt_q field +:+ " is a required field on transport.Config" in
  match cfg_RateLimitConfig cfg with
  | None => Some (wrapper "RateLimitConfig")
  | Some rl =>
      match RateLimitConfig_validate rl with
      | Some err => Some err
      | None => None
      end
  end.

(** [s[i]] on a slice: out of range is a run-time panic. *)
Definition slice_index {A : Type} (s : list A) (i : nat) : result A :=
  match s !! i with
  | Some x => Ret x
  | None => Panic "index out of range"
  end.

(** [for n, v := range q { query.Set(n, v) }]. *)
Definition set_all (q : gmap string string) (query : Values) : Values :=
  map_fold (fun n v acc => Values_Set acc n v) query q.

(** ** [transport.go]: fetch configurations, workers, flattening *)

Section Transport.

Context `{Collaborators}.

(** [(cfg *Config) connect(ctx)]. *)
Definition connect (cfg : Config) : option Client * option error :=
  match apiKey (cfg_Authentication cfg) with
  | Some k => web_NewClient (cfg_URL cfg) k
  | None => (None, None)
  end.

(** [(cfg *Config) repositories(ctx)], over the entries of [DNSList]. *)
Fixpoint repositories_loop (dnsList : list string) : list Repo + error :=
  match dnsList with
  | [] => inl []
  | dns :: rest =>
      match storage_New dns with
      | inr err =>
          inr ("error building repositories for transport config: " +:+ err)
      | inl repo =>
          match repositories_loop rest with
          | inr err => inr err
          | inl repos => inl (repo :: repos)
          end
      end
  end.

Definition repositories (cfg : Config) : list Repo + error :=
  repositories_loop (DNSList cfg).

Record FetchConfig : Type := mkFetchConfig {
  fc_Client : option Client;
  fc_Method : string;
  fc_URL : URL;
  fc_RateLimiter : Limiter
}.

(** [newFetchConfig(ctx, cfg, req, client, rl)]. *)
Definition newFetchConfig (cfg : Config) (req : Request)
    (client : option Client) (rl : Limiter) : FetchConfig + error :=
  match url_JoinPath (cfg_URL cfg) (Endpoint req) with
  | inr err =>
      inr ("error joining url " +:+ fmt_q (cfg_URL cfg) +:+ " to endpoint "
           +:+ fmt_q (Endpoint req) +:+ ": " +:+ err)
  | inl rawURL =>
      match url_Parse rawURL with
      | inr err =>
          inr ("error parsing raw url " +:+ fmt_q rawURL +:+ ": " +:+ err)
      | inl u =>
          let u :=
            match Query req with
            | Some q => with_RawQuery u (set_all q (URL_Query u))
            | None => u
            end in
          inl {| fc_Client := client; fc_Method := Method req;
                 fc_URL := u; fc_RateLimiter := rl |}
      end
  end.

Record repoJob : Type := mkRepoJob {
  b : bytes;
  job_url : URL;
  job_table : option string
}.

Record flattenedRequest : Type := mkFlattenedRequest {
  fetchConfig : FetchConfig;
  table : option string
}.

(** The two callbacks [repositoryWorker] builds; a job that selects
    neither leaves [encodingCallback] nil. *)
Inductive encodingCallback : Type :=
| encodeCandles (productID : string)
| encodeUnchanged.

(** The first half of the body of [repositoryWorker]'s loop: the table of
    the job and its encoding callback. *)
Definition repositoryWorker_resolve (job : repoJob)
  : result (string * option encodingCallback) :=
  let endpoint := TrimPrefix (url_EscapedPath (job_url job)) "/" in
  let endpointParts := Split endpoint "/" in
  table ← slice_index endpointParts (length endpointParts - 1)%nat;
  let table :=
    match job_table job with
    | Some t => t
    | None => table
    end in
  if String.eqb table "candles" then
    if Contains (Host (job_url job)) "coinbase.com" then
      granularity ←
        slice_index (Values_index (URL_Query (job_url job)) "granularity") 0%nat;
      let table :=
        if String.eqb granularity "60" then "candle_minutes" else table in
      productID ← slice_index endpointParts 1%nat;
      Ret (table, Some (encodeCandles productID))
    else Ret (table, None)
  else Ret (table, Some encodeUnchanged).

(** [encodingCallback(job)]; calling a nil func value panics. *)
Definition call_encodingCallback (cb : option encodingCallback)
    (job : repoJob) : result (bytes * option error) :=
  match cb with
  | None => Panic "invalid memory address or nil pointer dereference"
  | Some (encodeCandles productID) => Ret (candles_encode productID (b job))
  | Some encodeUnchanged => Ret (b job, None)
  end.

(** What a storage worker does that others observe: an upsert that
    completed, and the signal on [cfg.done]. *)
Inductive repoEvent : Type :=
| Upserted (repo : Repo) (table : string) (payload : bytes)
| Done.

(** [for _, repo := range cfg.repositories { ... }] for one job. *)
Fixpoint repositoryWorker_upsert (repos : list Repo) (table : string)
    (cb : option encodingCallback) (job : repoJob)
  : list repoEvent * result unit :=
  match repos with
  | [] => ([], Ret tt)
  | repo :: rest =>
      match call_encodingCallback cb job with
      | Ret (_, Some err) => ([], Fatal err)
      | Ret (payload, None) =>
          match UpsertJSON repo table payload with
          | Some err => ([], Fatal err)
          | None =>
              let '(evs, r) := repositoryWorker_upsert rest table cb job in
              (Upserted repo table payload :: evs, r)
          end
      | Panic msg => ([], Panic msg)
      | Fatal err => ([], Fatal err)
      | NoFuel => ([], NoFuel)
      end
  end.

(** The body of [repositoryWorker]'s loop for one job. *)
Definition repositoryWorker_job (repos : list Repo) (job : repoJob)
  : list repoEvent * result unit :=
  match repositoryWorker_resolve job with
  | Ret (table, cb) =>
      match repositoryWorker_upsert repos table cb job with
      | (evs, Ret _) => ((evs ++ [Done])%list, Ret tt)
      | (evs, r) => (evs, r)
      end
  | Panic msg => ([], Panic msg)
  | Fatal err => ([], Fatal err)
  | NoFuel => ([], NoFuel)
  end.

(** [repositoryWorker(ctx, id, cfg)] on the jobs it receives from
    [cfg.jobs], in the order it receives them. *)
Fixpoint repositoryWorker (repos : list Repo) (jobs : list repoJob)
  : list repoEvent * result unit :=
  match jobs with
  | [] => ([], Ret tt)
  | job :: rest =>
      match repositoryWorker_job repos job with
      | (evs, Ret _) =>
          let '(evs', r) := repositoryWorker repos rest in
          ((evs ++ evs')%list, r)
      | (evs, r) => (evs, r)
      end
  end.

(** [webWorker(ctx, id, jobs)] on the jobs it receives: the [repoJob]s it
    sends on [job.repoJobs], and how it ends. *)
Fixpoint webWorker (jobs : list flattenedRequest)
  : list repoJob * result unit :=
  match jobs with
  | [] => ([], Ret tt)
  | job :: rest =>
      let fc := fetchConfig job in
      match web_Fetch (fc_Client fc) (fc_Method fc) (fc_URL fc)
              (fc_RateLimiter fc) with
      | (_, Some err) => ([], Fatal err)
      | (payload, None) =>
          let '(sent, r) := webWorker rest in
          ({| b := payload; job_url := fc_URL fc; job_table := table job |}
             :: sent, r)
      end
  end.

(** [for _, chunk := range chunks { ... }] of [Upsert], for the request
    cell [req] whose timeseries is [ts]: the cell after the loop, and the
    requests appended to [flattenedRequests], or the error [Upsert]
    returns. *)
Fixpoint Upsert_chunks (cfg : Config) (client : option Client)
    (rl : Limiter) (ts : timeseries) (req : Request) (cs : list timeRange)
  : Request * result (list flattenedRequest + error) :=
  match cs with
  | [] => (req, Ret (inl []))
  | c :: rest =>
      (* chunkReq := req: the same cell *)
      match Layout ts, Query req with
      | None, _ =>
          (req, Panic "invalid memory address or nil pointer dereference")
      | Some _, None => (req, Panic "assignment to entry in nil map")
      | Some layout, Some q =>
          let q := <[StartName ts := time_Format layout (fst c)]> q in
          let q := <[EndName ts := time_Format layout (snd c)]> q in
          let chunkReq := with_Query req (Some q) in
          match newFetchConfig cfg chunkReq client rl with
          | inr err => (chunkReq, Ret (inr err))
          | inl chunkedFetchConfig =>
              let fr := {| fetchConfig := chunkedFetchConfig;
                           table := Table chunkReq |} in
              match Upsert_chunks cfg client rl ts chunkReq rest with
              | (req', Ret (inl frs)) => (req', Ret (inl (fr :: frs)))
              | other => other
              end
          end
      end
  end.

(** The body of [for _, req := range cfg.Requests] in [Upsert]. *)
Definition Upsert_request (fuel : nat) (cfg : Config)
    (client : option Client) (rl : Limiter) (req : Request)
  : Request * result (list flattenedRequest + error) :=
  match newFetchConfig cfg req client rl with
  | inr err => (req, Ret (inr err))
  | inl fc =>
      match Timeseries req with
      | Some ts =>
          let xurl := fc_URL fc in
          let '(ts', r) := chunks fuel ts xurl in
          let req := with_Timeseries req (Some ts') in
          match r with
          | Ret (_, Some _) =>
              (req, Ret (inr "error getting timeseries chunks: []"))
          | Ret (cs, None) => Upsert_chunks cfg client rl ts' req cs
          | Panic msg => (req, Panic msg)
          | Fatal err => (req, Fatal err)
          | NoFuel => (req, NoFuel)
          end
      | None => (req, Ret (inl [{| fetchConfig := fc; table := Table req |}]))
      end
  end.

(** [for _, req := range cfg.Requests { ... }]: the request cells after
    the loop, and [flattenedRequests] or the error returned. *)
Fixpoint Upsert_requests (fuel : nat) (cfg : Config)
    (client : option Client) (rl : Limiter) (reqs : list Request)
  : list Request * result (list flattenedRequest + error) :=
  match reqs with
  | [] => ([], Ret (inl []))
  | req :: rest =>
      match Upsert_request fuel cfg client rl req with
      | (req', Ret (inl frs)) =>
          match Upsert_requests fuel cfg client rl rest with
          | (rest', Ret (inl frs')) => (req' :: rest', Ret (inl (frs ++ frs')%list))
          | (rest', r) => (req' :: rest', r)
          end
      | (req', r) => (req' :: rest, r)
      end
  end.

(** [Upsert(ctx, cfg)] from its first line to the end of the flattening
    loop, when [next] limiters exist already. The result is [inr err]
    when [Upsert] returns [err], and [inl flattenedRequests] when control
    reaches the start of the workers; the first component is
    [cfg.Requests] as the call leaves it. *)
Definition Upsert_flatten (fuel : nat) (next : nat) (cfg : Config)
  : list Request * result (list flattenedRequest + error) :=
  match Config_validate cfg with
  | Some err => (Requests cfg, Ret (inr err))
  | None =>
      match connect cfg with
      | (_, Some err) =>
          (Requests cfg, Ret (inr ("unable to connect to client: " +:+ err)))
      | (client, None) =>
          match repositories cfg with
          | inr err => (Requests cfg, Ret (inr err))
          | inl _ =>
              match cfg_RateLimitConfig cfg with
              | Some {| Burst := Some burst; rl_Period := Some period |} =>
                  let rateLimiter :=
                    NewLimiter next (Duration_mul period Second) burst in
                  Upsert_requests fuel cfg client rateLimiter (Requests cfg)
              | _ =>
                  (Requests cfg,
                   Panic "invalid memory address or nil pointer dereference")
              end
          end
      end
  end.

End Transport.

(** ** The later [Request] methods: [newFetchConfig], [flatten],
    [flattenTimeseries] *)

Module RequestGo.

(** The [timeseries] struct these methods use has one more field,
    [chunks], which the method [chunk] fills. *)
Record timeseries : Type := mkTimeseries {
  StartName : string;
  EndName : string;
  Period : Z;
  Layout : option string;
  chunks : list timeRange
}.

Record Request : Type := mkRequest {
  Method : string;
  Endpoint : string;
  Query : option (gmap string string);
  Timeseries : option timeseries;
  Table : string;
  Truncate : option bool;
  RateLimitConfig : option RateLimitConfig
}.

Definition with_Query (req : Request) (q : option (gmap string string)) : Request :=
  {| Method := Method req; Endpoint := Endpoint req; Query := q;
     Timeseries := Timeseries req; Table := Table req;
     Truncate := Truncate req; RateLimitConfig := RateLimitConfig req |}.

Definition with_Timeseries (req : Request) (ts : option timeseries) : Request :=
  {| Method := Method req; Endpoint := Endpoint req; Query := Query req;
     Timeseries := ts; Table := Table req;
     Truncate := Truncate req; RateLimitConfig := RateLimitConfig req |}.

Definition with_Path (u : URL) (p : string) : URL :=
  {| Host := Host u; Path := p; RawQuery := RawQuery u |}.

Section Methods.

Variable Client : Type.
Variable time_Format : string -> Time -> string.
Variable path_Join : string -> string -> string.
(** [(ts *timeseries) chunk(rurl)], which is not part of the sources
    at hand: the receiver after the call, and the error returned. *)
Variable chunk : timeseries -> URL -> timeseries * result (option error).

Record FetchConfig : Type := mkFetchConfig {
  fc_Method : string;
  fc_URL : URL;
  C : option Client;
  RateLimiter : Limiter
}.

Record flattenedRequest : Type := mkFlattenedRequest {
  fetchConfig : FetchConfig;
  table : string
}.

(** [(req *Request) newFetchConfig(rurl, client)], when [next]
    limiters have been allocated: the number allocated after the call,
    and the configuration. *)
Definition newFetchConfig (next : nat) (req : Request) (rurl : URL)
    (client : option Client) : nat * result FetchConfig :=
  let rurl := with_Path rurl (path_Join (Path rurl) (Endpoint req)) in
  let rurl :=
    match Query req with
    | Some q => with_RawQuery rurl (set_all q (URL_Query rurl))
    | None => rurl
    end in
  match RateLimitConfig req with
  | Some {| Burst := Some burst; rl_Period := Some period |} =>
      let rateLimiter := NewLimiter next period burst in
      (S next, Ret {| fc_Method := Method req; fc_URL := rurl;
                      C := client; RateLimiter := rateLimiter |})
  | _ => (next, Panic "invalid memory address or nil pointer dereference")
  end.

(** [(req *Request) flatten(rurl, client)]. *)
Definition flatten (next : nat) (req : Request) (rurl : URL)
    (client : option Client) : nat * result flattenedRequest :=
  let '(next, r) := newFetchConfig next req rurl client in
  (next, fetchConfig ← r;
         Ret {| fetchConfig := fetchConfig; table := Table req |}).

(** [for _, chunk := range timeseries.chunks { ... }] of
    [flattenTimeseries] on the request cell [req]. *)
Fixpoint flattenTimeseries_loop (next : nat) (ts : timeseries)
    (req : Request) (rurl : URL) (client : option Client)
    (cs : list timeRange)
  : nat * Request * result (list flattenedRequest) :=
  match cs with
  | [] => (next, req, Ret [])
  | c :: rest =>
      (* chunkReq := req: the same cell *)
      match Layout ts, Query req with
      | None, _ =>
          (next, req,
           Panic "invalid memory address or nil pointer dereference")
      | Some _, None => (next, req, Panic "assignment to entry in nil map")
      | Some layout, Some q =>
          let q := <[StartName ts := time_Format layout (fst c)]> q in
          let q := <[EndName ts := time_Format layout (snd c)]> q in
          let chunkReq := with_Query req (Some q) in
          match newFetchConfig next chunkReq rurl client with
          | (next, Ret fetchConfig) =>
              let fr := {| fetchConfig := fetchConfig;
                           table := Table chunkReq |} in
              match flattenTimeseries_loop next ts chunkReq rurl client rest with
              | (next, req', Ret frs) => (next, req', Ret (fr :: frs))
              | other => other
              end
          | (next, Panic msg) => (next, chunkReq, Panic msg)
          | (next, Fatal err) => (next, chunkReq, Fatal err)
          | (next, NoFuel) => (next, chunkReq, NoFuel)
          end
      end
  end.

(** [(req *Request) flattenTimeseries(rurl, client)]. *)
Definition flattenTimeseries (next : nat) (req : Request) (rurl : URL)
    (client : option Client)
  : nat * Request * result (list flattenedRequest * option error) :=
  match Timeseries req with
  | None =>
      let '(next, r) := flatten next req rurl client in
      (next, req, flatReq ← r; Ret ([flatReq], None))
  | Some ts =>
      let rurl :=
        match Query req with
        | Some q => with_RawQuery rurl (set_all q (URL_Query rurl))
        | None => rurl
        end in
      let '(ts, r) := chunk ts rurl in
      let req := with_Timeseries req (Some ts) in
      match r with
      | Ret (Some err) =>
          (next, req,
           Ret ([], Some ("failed to set time series chunks: " +:+ err)))
      | Ret None =>
          let '(next, req, r) :=
            flattenTimeseries_loop next ts req rurl client (chunks ts) in
          (next, req, requests ← r; Ret (requests, None))
      | Panic msg => (next, req, Panic msg)
      | Fatal err => (next, req, Fatal err)
      | NoFuel => (next, req, NoFuel)
      end
  end.

End Methods.

End RequestGo.

(** ** Predicates of the specification *)

(** [cs] is a chain of non-empty intervals from [s] to [e]: the first one
    starts at [s], each next one starts where the one before it ends, and
    the last one ends at [e]. *)
Fixpoint tiles (s e : Time) (cs : list timeRange) : Prop :=
  match cs with
  | [] => s = e
  | c :: rest => fst c = s /\ fst c < snd c /\ tiles (snd c) e rest
  end.

(** The instant [t] lies in the interval [c], whose end is excluded. *)
Definition within (t : Time) (c : timeRange) : Prop := fst c <= t < snd c.

(** The length of a chunk, in nanoseconds. *)
Definition range_length (c : timeRange) : Z := snd c - fst c.

(** What the chunker reports an error on: a bound that is absent or given
    more than once, or that [time.Parse] refuses under the layout. *)
Definition bad_bound `{Collaborators} (layout : string) (query : Values)
    (name : string) : Prop :=
  length (Values_index query name) <> 1%nat \/
  exists value err,
    Values_index query name = [value] /\ time_Parse layout value = inr err.

(** The segments of the path of the source URL of a job, the leading slash
    stripped. *)
Definition path_segments `{Collaborators} (job : repoJob) : list string :=
  Split (TrimPrefix (url_EscapedPath (job_url job)) "/") "/".

(** The table a job names: its explicit table when it carries one, the
    last segment of the path of its source URL otherwise. *)
Definition declared_table `{Collaborators} (job : repoJob) : string :=
  match job_table job with
  | Some t => t
  | None => default "" (last (path_segments job))
  end.

(** The job is a candles job of the Coinbase host. *)
Definition coinbase_candles `{Collaborators} (job : repoJob) : Prop :=
  declared_table job = "candles" /\
  Contains (Host (job_url job)) "coinbase.com" = true.

(** What [web.Fetch] returns for a flattened request, and the job a fetch
    worker sends to the storage workers for the payload it fetched. *)
Definition fetched `{Collaborators} (job : flattenedRequest)
  : bytes * option error :=
  let fc := fetchConfig job in
  web_Fetch (fc_Client fc) (fc_Method fc) (fc_URL fc) (fc_RateLimiter fc).

Definition response `{Collaborators} (job : flattenedRequest) : repoJob :=
  {| b := fst (fetched job); job_url := fc_URL (fetchConfig job);
     job_table := table job |}.

(** What an outcome of the flattening carries: the flattened requests
    with which [Upsert] goes on to start its workers, or the error it
    returns. *)
Definition flattened `{Collaborators}
    (r : result (list flattenedRequest + error))
  : option (list flattenedRequest) :=
  match r with
  | Ret (inl frs) => Some frs
  | _ => None
  end.

Definition returned_error `{Collaborators}
    (r : result (list flattenedRequest + error)) : option error :=
  match r with
  | Ret (inr err) => Some err
  | _ => None
  end.

(** ** Further notions used by the properties of the code *)

(** The [i]-th interval of the range from [s] to [e] cut in steps of
    [step], and the number of intervals the range is cut into. *)
Definition chunk_at (s e : Time) (step : Duration) (i : nat) : timeRange :=
  (s + Z.of_nat i * step, Z.min (s + (Z.of_nat i + 1) * step) e).

Definition chunk_count (s e : Time) (step : Duration) : nat :=
  Z.to_nat ((e - s + step - 1) / step).

(** The completion signals and the upserts among the events of a storage
    worker. *)
Definition is_Done `{Collaborators} (ev : repoEvent) : bool :=
  match ev with
  | Done => true
  | Upserted _ _ _ => false
  end.

Definition count_Done `{Collaborators} (evs : list repoEvent) : nat :=
  length (List.filter is_Done evs).

Definition count_Upserted `{Collaborators} (evs : list repoEvent) : nat :=
  length (List.filter (fun ev => negb (is_Done ev)) evs).

(** The rate limit of a configuration is complete: present, with a burst
    and a period. *)
Definition complete_rate_limit (rl : option RateLimitConfig) : Prop :=
  exists burst period,
    rl = Some {| Burst := Some burst; rl_Period := Some period |}.

(** The values of [key] in the query of a request built on the URL [u]:
    the one value of the request when it has the parameter, the values of
    [u] otherwise. *)
Definition merged_values (q : option (gmap string string)) (u : URL)
    (key : string) : option (list string) :=
  match q with
  | Some q =>
      match q !! key with
      | Some value => Some [value]
      | None => URL_Query u !! key
      end
  | None => URL_Query u !! key
  end.

(** The flattened request [fr] is the request [req] for the chunk [c]:
    its URL carries the bounds of the chunk, formatted with [layout], as
    the only values of the start and end parameters of [ts], and it has
    the method and the table of [req]. *)
Definition chunk_request `{Collaborators} (ts : timeseries) (layout : string)
    (req : Request) (c : timeRange) (fr : flattenedRequest) : Prop :=
  Values_index (URL_Query (fc_URL (fetchConfig fr))) (StartName ts)
  = [time_Format layout (fst c)] /\
  Values_index (URL_Query (fc_URL (fetchConfig fr))) (EndName ts)
  = [time_Format layout (snd c)] /\
  fc_Method (fetchConfig fr) = Method req /\
  table fr = Table req.

(** The query maps [q] and [q'] of a request are both nil, or are both
    maps that agree on every parameter but the start and the end of
    [ts]. *)
Definition same_but_bounds (ts : timeseries)
    (q q' : option (gmap string string)) : Prop :=
  match q, q' with
  | None, None => True
  | Some q, Some q' =>
      forall key, key <> StartName ts -> key <> EndName ts ->
                  q' !! key = q !! key
  | _, _ => False
  end.

(** ** Executable stand-ins for the collaborators

    Used only to run the code above on concrete inputs. Each one computes
    what the library function computes on the inputs of the examples
    below (UTC instants written [YYYY-MM-DDTHH:MM:SSZ], an [https] base
    URL without path, clean endpoints). *)

Definition digit_of (c : ascii) : option Z :=
  let n := Z.of_nat (nat_of_ascii c) in
  if (48 <=? n) && (n <=? 57) then Some (n - 48) else None.

Fixpoint digits_from (acc : Z) (s : string) : option Z :=
  match s with
  | EmptyString => Some acc
  | String c rest =>
      match digit_of c with
      | Some d => digits_from (10 * acc + d) rest
      | None => None
      end
  end.

(** The decimal number written in the [len] bytes of [s] at [off]. *)
Definition field_at (s : string) (off len : nat) : option Z :=
  let f := String.substring off len s in
  if Nat.eqb (String.length f) len then digits_from 0 f else None.

Definition byte_at (s : string) (off : nat) (c : ascii) : bool :=
  match String.get off s with
  | Some c' => Ascii.eqb c c'
  | None => false
  end.

Definition is_leap (y : Z) : bool :=
  ((y mod 4 =? 0) && negb (y mod 100 =? 0)) || (y mod 400 =? 0).

Definition days_in_month (y m : Z) : Z :=
  if m =? 2 then (if is_leap y then 29 else 28)
  else if (m =? 4) || (m =? 6) || (m =? 9) || (m =? 11) then 30 else 31.

(** Days from 1970-01-01 to the civil date [y]-[m]-[d]. *)
Definition days_from_civil (y m d : Z) : Z :=
  let y := if m <=? 2 then y - 1 else y in
  let era := y / 400 in
  let yoe := y - era * 400 in
  let doy := (153 * (if 2 <? m then m - 3 else m + 9) + 2) / 5 + d - 1 in
  let doe := yoe * 365 + yoe / 4 - yoe / 100 + doy in
  era * 146097 + doe - 719468.

(** The civil date of the day [z] days after 1970-01-01. *)
Definition civil_from_days (z : Z) : Z * Z * Z :=
  let z := z + 719468 in
  let era := z / 146097 in
  let doe := z - era * 146097 in
  let yoe := (doe - doe / 1460 + doe / 36524 - doe / 146096) / 365 in
  let doy := doe - (365 * yoe + yoe / 4 - yoe / 100) in
  let mp := (5 * doy + 2) / 153 in
  let d := doy - (153 * mp + 2) / 5 + 1 in
  let m := if mp <? 10 then mp + 3 else mp - 9 in
  let y := yoe + era * 400 in
  (if m <=? 2 then y + 1 else y, m, d).

Definition ex_time_Parse (layout value : string) : Time + error :=
  if negb (String.eqb layout RFC3339) then inr "unsupported layout" else
  let bad := inr ("cannot parse " +:+ value) in
  if negb (Nat.eqb (String.length value) 20
           && byte_at value 4 "-" && byte_at value 7 "-"
           && byte_at value 10 "T" && byte_at value 13 ":"
           && byte_at value 16 ":" && byte_at value 19 "Z") then bad else
  match field_at value 0 4, field_at value 5 2, field_at value 8 2,
        field_at value 11 2, field_at value 14 2, field_at value 17 2 with
  | Some y, Some m, Some d, Some hh, Some mm, Some ss =>
      if (1 <=? m) && (m <=? 12) && (1 <=? d) && (d <=? days_in_month y m)
         && (hh <? 24) && (mm <? 60) && (ss <? 60)
      then inl ((days_from_civil y m d * 86400 + hh * 3600 + mm * 60 + ss)
                * 1000000000)
      else bad
  | _, _, _, _, _, _ => bad
  end.

(** [z] in decimal on [width] digits, most significant first. *)
Fixpoint fixed_width (width : nat) (z : Z) : string :=
  match width with
  | O => EmptyString
  | S w =>
      String (ascii_of_nat (48 + Z.to_nat ((z / 10 ^ Z.of_nat w) mod 10)))
        (fixed_width w z)
  end.

Definition ex_time_Format (layout : string) (t : Time) : string :=
  if negb (String.eqb layout RFC3339) then layout else
  let secs := t / 1000000000 in
  let days := secs / 86400 in
  let rem := secs mod 86400 in
  let '(y, m, d) := civil_from_days days in
  fixed_width 4 y +:+ "-" +:+ fixed_width 2 m +:+ "-" +:+ fixed_width 2 d
  +:+ "T" +:+ fixed_width 2 (rem / 3600) +:+ ":"
  +:+ fixed_width 2 (rem mod 3600 / 60) +:+ ":"
  +:+ fixed_width 2 (rem mod 60) +:+ "Z".

Definition ex_url_JoinPath (base elem : string) : string + error :=
  inl (base +:+ "/" +:+ TrimPrefix elem "/").

(** [host] with the bytes of [s] up to its first ["/"], and the rest. *)
Fixpoint cut_host (host : string) (s : string) : string * string :=
  match s with
  | EmptyString => (host, EmptyString)
  | String c rest =>
      if Ascii.eqb c "/" then (host, s)
      else cut_host (host +:+ String c EmptyString) rest
  end.

Definition ex_url_Parse (rawURL : string) : URL + error :=
  if String.prefix "https://" rawURL then
    let '(host, path) := cut_host EmptyString (TrimPrefix rawURL "https://") in
    inl {| Host := host; Path := path; RawQuery := ∅ |}
  else inr "unsupported protocol scheme".

Definition ex_EscapedPath (u : URL) : string := Path u.

(** A client is the key it was built from; a key without secret is
    refused. *)
Definition ex_NewClient (url : string) (k : APIKey) : option APIKey * option error :=
  if String.eqb (Secret k) "" then (None, Some "invalid secret")
  else (Some k, None).

(** The remote API answers every path but [/unavailable]. *)
Definition ex_Fetch (client : option APIKey) (method : string) (u : URL)
    (rl : Limiter) : bytes * option error :=
  if String.eqb (Path u) "/unavailable" then ([], Some "503 Service Unavailable")
  else ([Byte.x5b; Byte.x5d], None).

(** A repository is its DNS; the scheme [readonly:] refuses every upsert. *)
Definition ex_storage_New (dns : string) : string + error :=
  if String.eqb dns "" then inr "empty dns" else inl dns.

Definition ex_UpsertJSON (repo : string) (table : string) (payload : bytes)
  : option error :=
  if String.prefix "readonly:" repo then Some "read-only storage" else None.

(** No candle of the examples has a payload to rewrite; an empty body is
    not JSON. *)
Definition ex_candles_encode (productID : string) (payload : bytes)
  : bytes * option error :=
  match payload with
  | [] => ([], Some "unexpected end of JSON input")
  | _ => (payload, None)
  end.

(** The request of the end-to-end example: two hours of minute candles in
    chunks of one hour. *)
Definition ex_timeseries : timeseries :=
  {| StartName := "start"; EndName := "end"; Period := 3600; Layout := None |}.

Definition ex_query : gmap string string :=
  <["granularity" := "60"]>
    (<["start" := "2023-01-01T00:00:00Z"]>
       (<["end" := "2023-01-01T02:00:00Z"]> ∅)).

Definition ex_request : Request :=
  {| Method := "GET"; Endpoint := "/products/BTC-USD/candles";
     RateLimitBurstCap := 0; Query := Some ex_query;
     Timeseries := Some ex_timeseries; Table := None |}.

Definition ex_config (auth : option APIKey) (reqs : list Request) : Config :=
  {| cfg_URL := "https://api.exchange.coinbase.com";
     cfg_Authentication := {| apiKey := auth |};
     DNSList := ["mongodb://one"; "postgresql://two"];
     Requests := reqs;
     cfg_RateLimitConfig := Some {| Burst := Some 10; rl_Period := Some 1 |};
     Truncate := false |}.

Definition ex_key : APIKey :=
  {| Passphrase := "passphrase"; Key := "key"; Secret := "secret" |}.

#[local] Instance ex_collaborators : Collaborators := {|
  Client := APIKey;
  Repo := string;
  time_Parse := ex_time_Parse;
  time_Format := ex_time_Format;
  url_JoinPath := ex_url_JoinPath;
  url_Parse := ex_url_Parse;
  url_EscapedPath := ex_EscapedPath;
  web_NewClient := ex_NewClient;
  web_Fetch := ex_Fetch;
  storage_New := ex_storage_New;
  UpsertJSON := ex_UpsertJSON;
  candles_encode := ex_candles_encode
|}.

(** The URL of that request once its query is applied, and the same URL
    with the bounds exchanged, without its start, and with a start that is
    not a time. *)
Definition ex_url_with (q : gmap string string) : URL :=
  {| Host := "api.exchange.coinbase.com"; Path := "/products/BTC-USD/candles";
     RawQuery := (fun v => [v]) <$> q |}.

Definition ex_url : URL := ex_url_with ex_query.

Definition ex_url_reversed : URL :=
  ex_url_with (<["start" := "2023-01-01T02:00:00Z"]>
                 (<["end" := "2023-01-01T00:00:00Z"]> ex_query)).

Definition ex_url_no_start : URL := ex_url_with (delete "start" ex_query).

Definition ex_url_bad_start : URL :=
  ex_url_with (<["start" := "yesterday"]> ex_query).

(** Responses to store: minute candles of BTC-USD; the same with an
    explicit table; candles fetched from a URL without granularity; and
    candles of a one-segment path sent to the table ["candles"]. *)
Definition ex_job : repoJob :=
  {| b := [Byte.x5b; Byte.x5d]; job_url := ex_url; job_table := None |}.

Definition ex_job_explicit : repoJob :=
  {| b := [Byte.x5b; Byte.x5d]; job_url := ex_url;
     job_table := Some "candles" |}.

Definition ex_job_no_granularity : repoJob :=
  {| b := [Byte.x5b; Byte.x5d];
     job_url := ex_url_with (delete "granularity" ex_query);
     job_table := None |}.

Definition ex_job_short_path : repoJob :=
  {| b := [Byte.x5b; Byte.x5d];
     job_url := {| Host := "api.exchange.coinbase.com"; Path := "/candles";
                   RawQuery := RawQuery ex_url |};
     job_table := None |}.

(** Fetch jobs for a path of the example host. *)
Definition ex_fetch_job (path : string) : flattenedRequest (H := ex_collaborators) :=
  {| fetchConfig :=
       {| fc_Client := None; fc_Method := "GET";
          fc_URL := {| Host := "api.exchange.coinbase.com"; Path := path;
                       RawQuery := ∅ |};
          fc_RateLimiter := NewLimiter 0 1000000000 10 |};
     table := None |}.

(** A fetched list of products to store. *)
Definition ex_products_job : repoJob :=
  response (H := ex_collaborators) (ex_fetch_job "/products").

(** The limiter of the example run, and the fetch configuration of the
    example request before it is cut into chunks. *)
Definition ex_limiter : Limiter := NewLimiter 0 (Duration_mul 1 Second) 10.

Definition ex_fetchConfig : FetchConfig (H := ex_collaborators) :=
  {| fc_Client := None; fc_Method := "GET";
     fc_URL := {| Host := "api.exchange.coinbase.com";
                  Path := "/products/BTC-USD/candles";
                  RawQuery := set_all ex_query ∅ |};
     fc_RateLimiter := ex_limiter |}.

(** The example request without its timeseries. *)
Definition ex_request_plain : Request := with_Timeseries ex_request None.

(** Stand-ins for the later [Request] methods. [path.Join] of an empty
    path and a clean endpoint is the endpoint. *)
Definition ex_path_Join (a b : string) : string :=
  if String.eqb a "" then b else a +:+ "/" +:+ TrimPrefix b "/".

(** Modelled from the spec: the method [chunk] of the later [timeseries]
    struct, and the field [chunks] it fills, are not among the sources.
    Following the chunker contract (section 4.1 of the specification) it
    computes the intervals that [chunks] of [transport.go] returns, and
    appends them to the field. *)
Definition ex_chunk (fuel : nat) (ts : RequestGo.timeseries) (rurl : URL)
  : RequestGo.timeseries * result (option error) :=
  let '(ts', r) :=
    chunks (H := ex_collaborators) fuel
      {| StartName := RequestGo.StartName ts; EndName := RequestGo.EndName ts;
         Period := RequestGo.Period ts; Layout := RequestGo.Layout ts |} rurl in
  let stored cs :=
    {| RequestGo.StartName := StartName ts'; RequestGo.EndName := EndName ts';
       RequestGo.Period := Period ts'; RequestGo.Layout := Layout ts';
       RequestGo.chunks := (RequestGo.chunks ts ++ cs)%list |} in
  match r with
  | Ret (cs, err) => (stored cs, Ret err)
  | Panic msg => (stored [], Panic msg)
  | Fatal err => (stored [], Fatal err)
  | NoFuel => (stored [], NoFuel)
  end.

Definition ex_request_go : RequestGo.Request :=
  {| RequestGo.Method := "GET";
     RequestGo.Endpoint := "/products/BTC-USD/candles";
     RequestGo.Query := Some ex_query;
     RequestGo.Timeseries :=
       Some {| RequestGo.StartName := "start"; RequestGo.EndName := "end";
               RequestGo.Period := 3600; RequestGo.Layout := None;
               RequestGo.chunks := [] |};
     RequestGo.Table := "candles";
     RequestGo.Truncate := None;
     RequestGo.RateLimitConfig :=
       Some {| Burst := Some 10; rl_Period := Some 1000000000 |} |}.

Definition ex_base_url : URL :=
  {| Host := "api.exchange.coinbase.com"; Path := ""; RawQuery := ∅ |}.

(** [flattenTimeseries] on the example request. *)
Definition ex_flattenTimeseries (fuel next : nat) (req : RequestGo.Request) :=
  RequestGo.flattenTimeseries APIKey ex_time_Format ex_path_Join
    (ex_chunk fuel) next req ex_base_url None.

(** The identities of the limiters of flattened requests. *)
Definition limiter_ids {C : Type} (frs : list (RequestGo.flattenedRequest C))
  : list nat :=
  map (fun fr => lim_id (RequestGo.RateLimiter C (RequestGo.fetchConfig C fr)))
    frs.

(** Further inputs: a configuration without rate limit, one whose second
    storage cannot be opened, and a base URL that carries a granularity
    and a limit of its own. *)
Definition ex_config_no_rate_limit : Config :=
  {| cfg_URL := "https://api.exchange.coinbase.com";
     cfg_Authentication := {| apiKey := None |};
     DNSList := ["mongodb://one"];
     Requests := [ex_request];
     cfg_RateLimitConfig := None;
     Truncate := false |}.

Definition ex_config_bad_storage : Config :=
  {| cfg_URL := "https://api.exchange.coinbase.com";
     cfg_Authentication := {| apiKey := None |};
     DNSList := ["mongodb://one"; ""; "postgresql://two"];
     Requests := [ex_request];
     cfg_RateLimitConfig := Some {| Burst := Some 10; rl_Period := Some 1 |};
     Truncate := false |}.

(** Candles of another exchange. *)
Definition ex_job_other_host : repoJob :=
  {| b := [Byte.x5b; Byte.x5d];
     job_url := {| Host := "api.kraken.com"; Path := "/0/public/candles";
                   RawQuery := ∅ |};
     job_table := None |}.

(** A request whose query lacks the start of its timeseries, and a
    request without query map of its own. *)
Definition ex_request_no_start : Request :=
  with_Query ex_request (Some (delete "start" ex_query)).

Definition ex_request_nil_query : Request := with_Query ex_request None.

(** A base URL that carries the bounds of the range itself. The stand-ins
    for [url.JoinPath] and [url.Parse] keep its query: the first puts the
    path before it, the second decodes its two parameters. *)
Definition ex_bounds_query : string :=
  "?start=2023-01-01T00:00:00Z&end=2023-01-01T02:00:00Z".

Definition ex_base_with_bounds : string :=
  "https://api.exchange.coinbase.com" +:+ ex_bounds_query.

Definition ex_url_JoinPath_bounds (base elem : string) : string + error :=
  if String.eqb base ex_base_with_bounds
  then inl ("https://api.exchange.coinbase.com/" +:+ TrimPrefix elem "/"
            +:+ ex_bounds_query)
  else ex_url_JoinPath base elem.

Definition ex_url_Parse_bounds (rawURL : string) : URL + error :=
  let n := (String.length rawURL - String.length ex_bounds_query)%nat in
  if String.eqb (String.substring n (String.length ex_bounds_query) rawURL)
       ex_bounds_query
  then match ex_url_Parse (String.substring 0 n rawURL) with
       | inl u =>
           inl (with_RawQuery u
                  (<["start" := ["2023-01-01T00:00:00Z"]]>
                     (<["end" := ["2023-01-01T02:00:00Z"]]> ∅)))
       | inr err => inr err
       end
  else ex_url_Parse rawURL.

Definition ex_collaborators_bounds : Collaborators := {|
  Client := APIKey;
  Repo := string;
  time_Parse := ex_time_Parse;
  time_Format := ex_time_Format;
  url_JoinPath := ex_url_JoinPath_bounds;
  url_Parse := ex_url_Parse_bounds;
  url_EscapedPath := ex_EscapedPath;
  web_NewClient := ex_NewClient;
  web_Fetch := ex_Fetch;
  storage_New := ex_storage_New;
  UpsertJSON := ex_UpsertJSON;
  candles_encode := ex_candles_encode
|}.

Definition ex_config_bounds : Config :=
  {| cfg_URL := ex_base_with_bounds;
     cfg_Authentication := {| apiKey := None |};
     DNSList := ["mongodb://one"];
     Requests := [ex_request_nil_query];
     cfg_RateLimitConfig := Some {| Burst := Some 10; rl_Period := Some 1 |};
     Truncate := false |}.

(** The example request with an explicit table. *)
Definition ex_request_table : Request :=
  {| Method := "GET"; Endpoint := "/products/BTC-USD/candles";
     RateLimitBurstCap := 0; Query := Some ex_query;
     Timeseries := Some ex_timeseries; Table := Some "btc_usd" |}.

(** The flattened request of the example request for the chunk from
    [start] to [end_], with the table [tbl]. *)
Definition ex_chunk_request (tbl : option string) (start end_ : string)
  : flattenedRequest (H := ex_collaborators) :=
  {| fetchConfig :=
       {| fc_Client := None; fc_Method := "GET";
          fc_URL := {| Host := "api.exchange.coinbase.com";
                       Path := "/products/BTC-USD/candles";
                       RawQuery :=
                         set_all (<["end" := end_]>
                                    (<["start" := start]> ex_query)) ∅ |};
          fc_RateLimiter := ex_limiter |};
     table := tbl |}.

(** What [flattenTimeseries] makes of the example request: its
    timeseries with the layout and the two chunks, the request as the call
    leaves it, and the flattened request for the chunk from [start] to
    [end_] with the limiter number [id]. *)
Definition ex_timeseries_go_chunked : RequestGo.timeseries :=
  {| RequestGo.StartName := "start"; RequestGo.EndName := "end";
     RequestGo.Period := 3600; RequestGo.Layout := Some RFC3339;
     RequestGo.chunks :=
       [(1672531200000000000, 1672534800000000000);
        (1672534800000000000, 1672538400000000000)] |}.

Definition ex_request_go_after : RequestGo.Request :=
  RequestGo.with_Timeseries
    (RequestGo.with_Query ex_request_go
       (Some (<["start" := "2023-01-01T01:00:00Z"]> ex_query)))
    (Some ex_timeseries_go_chunked).

Definition ex_chunk_request_go (start end_ : string) (id : nat)
  : RequestGo.flattenedRequest APIKey :=
  {| RequestGo.fetchConfig :=
       {| RequestGo.fc_Method := "GET";
          RequestGo.fc_URL :=
            {| Host := "api.exchange.coinbase.com";
               Path := "/products/BTC-USD/candles";
               RawQuery :=
                 set_all (<["end" := end_]> (<["start" := start]> ex_query))
                   (set_all ex_query ∅) |};
          RequestGo.C := None;
          RequestGo.RateLimiter := NewLimiter id 1000000000 10 |};
     RequestGo.table := "candles" |}.

(** The later request without query map, and a URL that carries the
    bounds of the range itself. *)
Definition ex_request_go_nil_query : RequestGo.Request :=
  RequestGo.with_Query ex_request_go None.

Definition ex_base_url_bounds : URL :=
  {| Host := "api.exchange.coinbase.com"; Path := "";
     RawQuery := <["start" := ["2023-01-01T00:00:00Z"]]>
                   (<["end" := ["2023-01-01T02:00:00Z"]]> ∅) |}.

(** * Properties *)

(** ** The chunker *)

Lemma wrap64_small (z : Z) : - 2 ^ 63 <= z < 2 ^ 63 -> wrap64 z = z.
Proof.
  intros Hz. unfold wrap64.
  rewrite Z.mod_small by lia. lia.
Qed.

(** A period that fits [int32] is converted to nanoseconds without
    wrap-around. *)
Lemma Duration_of_Period (p : Z) :
  int32_range p -> Duration_mul Second p = 1000000000 * p.
Proof.
  unfold int32_range, Duration_mul, Second. intros Hp.
  apply wrap64_small. lia.
Qed.

Lemma tiles_nonempty (s e : Time) (cs : list timeRange) :
  tiles s e cs -> s < e -> cs <> [].
Proof. destruct cs; simpl; [lia | discriminate]. Qed.

Lemma tiles_le (cs : list timeRange) : forall s e, tiles s e cs -> s <= e.
Proof.
  induction cs as [|c rest IH]; simpl; intros s e Ht; [lia|].
  destruct Ht as (? & ? & Ht). apply IH in Ht. lia.
Qed.

(** A chain from [s] to [e] covers exactly the instants of [[s, e)]. *)
Lemma tiles_cover (cs : list timeRange) : forall s e t,
  tiles s e cs -> (Exists (within t) cs <-> s <= t < e).
Proof.
  induction cs as [|c rest IH]; simpl; intros s e t Ht.
  - rewrite Exists_nil. lia.
  - destruct Ht as (Hs & Hlt & Ht). rewrite Exists_cons, (IH _ _ t Ht).
    pose proof (tiles_le _ _ _ Ht). unfold within. lia.
Qed.

(** No instant lies in two intervals of a chain: the intervals at two
    different positions are disjoint. *)
Lemma tiles_disjoint (cs : list timeRange) : forall s e i j c d t,
  tiles s e cs -> cs !! i = Some c -> cs !! j = Some d ->
  within t c -> within t d -> i = j.
Proof.
  assert (Hlater : forall rest s e j d t,
             tiles s e rest -> rest !! j = Some d -> within t d -> s <= t).
  { induction rest as [|c rest IH]; intros s e j d t Ht Hj Hd; [done|].
    destruct Ht as (Hs & Hlt & Ht). destruct j as [|j]; simpl in Hj.
    - injection Hj as <-. unfold within in Hd. lia.
    - pose proof (IH _ _ _ _ _ Ht Hj Hd). lia. }
  induction cs as [|c0 rest IH]; intros s e i j c d t Ht Hi Hj Hc Hd; [done|].
  destruct Ht as (Hs & Hlt & Ht).
  destruct i as [|i], j as [|j]; simpl in Hi, Hj.
  - done.
  - injection Hi as <-. pose proof (Hlater _ _ _ _ _ _ Ht Hj Hd).
    unfold within in Hc. lia.
  - injection Hj as <-. pose proof (Hlater _ _ _ _ _ _ Ht Hi Hc).
    unfold within in Hd. lia.
  - f_equal. eapply IH; eauto.
Qed.

(** More fuel does not change what the loop returns. *)
Lemma chunks_loop_fuel_mono (p : Z) : forall fuel fuel' s e cs,
  (fuel <= fuel')%nat ->
  chunks_loop fuel p s e = Ret cs -> chunks_loop fuel' p s e = Ret cs.
Proof.
  induction fuel as [|fuel IH]; intros fuel' s e cs Hle; simpl.
  - destruct fuel'; simpl; destruct (Before s e); congruence.
  - destruct fuel' as [|fuel']; [lia|]. simpl.
    destruct (Before s e); [|done].
    destruct (chunks_loop fuel p _ e) as [rest| | |] eqn:Hrest; simpl; try done.
    intros Hcs. rewrite (IH fuel' _ _ rest) by (done || lia). done.
Qed.

(** The loop on a positive step: it ends within [fuel] iterations when
    [fuel] steps reach from [s] to [e], and what it returns is a chain from
    [s] to [e] of intervals of one step each, the last one cut at [e]. *)
Lemma chunks_loop_tiles (p : Z) :
  let step := Duration_mul Second p in
  0 < step ->
  forall fuel s e,
    e - s <= Z.of_nat fuel * step ->
    exists cs,
      chunks_loop fuel p s e = Ret cs /\
      (e <= s -> cs = []) /\
      (s < e ->
       tiles s e cs /\
       Forall (fun c => range_length c <= step) cs /\
       Forall (fun c => range_length c = step) (removelast cs)).
Proof.
  intros step Hstep. induction fuel as [|fuel IH]; intros s e Hfuel.
  - simpl. unfold Before. destruct (Z.ltb_spec s e) as [Hlt|Hge]; [lia|].
    exists []. repeat split; try done. lia.
  - simpl. unfold Before at 1. destruct (Z.ltb_spec s e) as [Hlt|Hge].
    2:{ exists []. repeat split; try done. lia. }
    fold step. unfold Add.
    destruct (IH (s + step) e) as (rest & Hrest & Hnil & Hchain); [lia|].
    rewrite Hrest. simpl. eexists. split; [reflexivity|].
    split; [lia|]. intros _. unfold Before.
    destruct (Z.ltb_spec (s + step) e) as [Hnext|Hnext].
    + destruct (Hchain Hnext) as (Ht & Hle & Heq).
      pose proof (tiles_nonempty _ _ _ Ht Hnext) as Hne.
      split; [simpl; repeat split; (done || lia)|]. split.
      * constructor; [unfold range_length; simpl; lia | done].
      * destruct rest; [done|].
        constructor; [unfold range_length; simpl; lia|done].
    + rewrite (Hnil Hnext). split; [simpl; repeat split; (done || lia)|]. split.
      * constructor; [unfold range_length; simpl; lia | constructor].
      * constructor.
Qed.

(** C1. When the start value parses to [s], the end value to [e], [s] is
    before [e] and the period is positive, [chunks] returns (given enough
    fuel for its loop) a finite ordered sequence of intervals that is a
    chain from [s] to [e]: the intervals cover exactly the instants of
    [[s, e)], no instant lies in two of them, none is longer than the
    period, and all but the last have the length of the period. *)
Theorem chunks_tile_the_range `{Collaborators} (ts : timeseries) (url : URL)
    (startValue endValue : string) (s e : Time) :
  Values_index (URL_Query url) (StartName ts) = [startValue] ->
  Values_index (URL_Query url) (EndName ts) = [endValue] ->
  time_Parse (default_Layout ts) startValue = inl s ->
  time_Parse (default_Layout ts) endValue = inl e ->
  s < e ->
  0 < Period ts ->
  int32_range (Period ts) ->
  exists (cs : list timeRange) (n : nat),
    (forall fuel, (n <= fuel)%nat ->
                  snd (chunks fuel ts url) = Ret (cs, None)) /\
    tiles s e cs /\
    (forall t, Exists (within t) cs <-> s <= t < e) /\
    (forall i j c d t, cs !! i = Some c -> cs !! j = Some d ->
                       within t c -> within t d -> i = j) /\
    Forall (fun c => range_length c <= Period ts * Second) cs /\
    Forall (fun c => range_length c = Period ts * Second) (removelast cs).
Proof.
  intros Hstart Hend Hs He Hlt Hpos Hrange.
  pose proof (Duration_of_Period _ Hrange) as Hstep.
  set (step := Duration_mul Second (Period ts)) in *.
  assert (Hstep_pos : 0 < step) by lia.
  set (n := S (Z.to_nat ((e - s) / step))).
  assert (Hn : e - s <= Z.of_nat n * step).
  { unfold n. rewrite Nat2Z.inj_succ, Z2Nat.id by (apply Z.div_pos; lia).
    pose proof (Z.mul_succ_div_gt (e - s) step Hstep_pos). lia. }
  destruct (chunks_loop_tiles (Period ts) Hstep_pos n s e Hn)
    as (cs & Hrun & _ & Hcs).
  destruct (Hcs Hlt) as (Htiles & Hle & Heq).
  exists cs, n. split; [|split; [done|split; [|split; [|split]]]].
  - intros fuel Hfuel. unfold chunks. simpl.
    rewrite Hstart, Hs, Hend, He.
    rewrite (chunks_loop_fuel_mono _ _ _ _ _ _ Hfuel Hrun). done.
  - intros t. by apply tiles_cover.
  - intros i j c d t. by apply tiles_disjoint with (s := s) (e := e).
  - unfold Second. replace (Period ts * 1000000000) with step by lia. done.
  - unfold Second. replace (Period ts * 1000000000) with step by lia. done.
Qed.

Lemma chunks_tile_the_range_witness :
  exists (cs : list timeRange) (n : nat),
    (forall fuel, (n <= fuel)%nat ->
       snd (chunks (H := ex_collaborators) fuel ex_timeseries ex_url)
       = Ret (cs, None)) /\
    tiles 1672531200000000000 1672538400000000000 cs /\
    (forall t, Exists (within t) cs
               <-> 1672531200000000000 <= t < 1672538400000000000) /\
    (forall i j c d t, cs !! i = Some c -> cs !! j = Some d ->
                       within t c -> within t d -> i = j) /\
    Forall (fun c => range_length c <= 3600 * Second) cs /\
    Forall (fun c => range_length c = 3600 * Second) (removelast cs).
Proof.
  apply (chunks_tile_the_range (H := ex_collaborators) ex_timeseries ex_url
           "2023-01-01T00:00:00Z" "2023-01-01T02:00:00Z").
  - vm_compute. reflexivity.
  - vm_compute. reflexivity.
  - vm_compute. reflexivity.
  - vm_compute. reflexivity.
  - lia.
  - simpl. lia.
  - unfold int32_range. simpl. lia.
Defined.

(** The chunker on the end-to-end example: two chunks of one hour. *)
Example chunks_two_hours :
  snd (chunks (H := ex_collaborators) 2 ex_timeseries ex_url)
  = Ret ([(1672531200000000000, 1672534800000000000);
          (1672534800000000000, 1672538400000000000)], None).
Proof. vm_compute. reflexivity. Qed.

(** A period that is not positive never brings [start] up to [end]: the
    loop uses up any fuel. *)
Example chunks_zero_period_no_end :
  snd (chunks (H := ex_collaborators) 1000
         {| StartName := "start"; EndName := "end"; Period := 0;
            Layout := None |} ex_url) = NoFuel.
Proof. vm_compute. reflexivity. Qed.

Lemma chunks_loop_not_before (fuel : nat) (p : Z) (s e : Time) :
  e <= s -> chunks_loop fuel p s e = Ret [].
Proof.
  intros Hle. destruct fuel; simpl; unfold Before;
    destruct (Z.ltb_spec s e); (lia || done).
Qed.

(** C8. When the start value parses to [s], the end value to [e] and [s]
    is not before [e], [chunks] returns no chunk and no error, whatever the
    period and the fuel; a request with this timeseries then adds nothing
    to the flattened requests of [Upsert], so that no fetch is made for
    it. *)
Theorem chunks_empty_when_start_not_before_end `{Collaborators}
    (ts : timeseries) (url : URL) (startValue endValue : string)
    (s e : Time) :
  Values_index (URL_Query url) (StartName ts) = [startValue] ->
  Values_index (URL_Query url) (EndName ts) = [endValue] ->
  time_Parse (default_Layout ts) startValue = inl s ->
  time_Parse (default_Layout ts) endValue = inl e ->
  e <= s ->
  forall fuel,
    snd (chunks fuel ts url) = Ret ([], None) /\
    forall cfg client rl req fc,
      newFetchConfig cfg req client rl = inl fc ->
      fc_URL fc = url ->
      Timeseries req = Some ts ->
      snd (Upsert_request fuel cfg client rl req) = Ret (inl []).
Proof.
  intros Hstart Hend Hs He Hle fuel.
  assert (Hchunks : snd (chunks fuel ts url) = Ret ([], None)).
  { unfold chunks. simpl. rewrite Hstart, Hs, Hend, He.
    rewrite chunks_loop_not_before by done. done. }
  split; [done|].
  intros cfg client rl req fc Hfc Hurl Hts.
  unfold Upsert_request. rewrite Hfc, Hts, Hurl.
  destruct (chunks fuel ts url) as [ts' r]. simpl in Hchunks. subst r.
  done.
Qed.

Lemma chunks_empty_when_start_not_before_end_witness :
  snd (chunks (H := ex_collaborators) 0 ex_timeseries ex_url_reversed)
  = Ret ([], None).
Proof.
  refine (proj1 (chunks_empty_when_start_not_before_end
                   (H := ex_collaborators) ex_timeseries ex_url_reversed
                   "2023-01-01T02:00:00Z" "2023-01-01T00:00:00Z"
                   1672538400000000000 1672531200000000000
                   _ _ _ _ _ 0%nat)).
  - vm_compute. reflexivity.
  - vm_compute. reflexivity.
  - vm_compute. reflexivity.
  - vm_compute. reflexivity.
  - lia.
Defined.

(** C9. [chunks] returns an error exactly when the start or the end
    parameter is absent from the query or has more than one value, or its
    value does not parse under the layout of the timeseries, which is
    RFC3339 when none is set; with the error it returns no chunks. *)
Theorem chunks_error_iff_bad_bound `{Collaborators} (fuel : nat)
    (ts : timeseries) (url : URL) :
  let layout := default_Layout ts in
  ((exists cs err, snd (chunks fuel ts url) = Ret (cs, Some err)) <->
   bad_bound layout (URL_Query url) (StartName ts) \/
   bad_bound layout (URL_Query url) (EndName ts)) /\
  (forall cs err, snd (chunks fuel ts url) = Ret (cs, Some err) -> cs = []) /\
  (Layout ts = None -> layout = RFC3339).
Proof.
  intros layout. unfold chunks, bad_bound. simpl. fold layout.
  split; [|split].
  - destruct (Values_index (URL_Query url) (StartName ts))
      as [|sv [|sv' ss]] eqn:Hstart; simpl.
    + split; [intros _; left; left; lia | eauto].
    + destruct (time_Parse layout sv) as [s|err] eqn:Hs.
      * destruct (Values_index (URL_Query url) (EndName ts))
          as [|ev [|ev' es]] eqn:Hend; simpl.
        -- split; [intros _; right; left; lia | eauto].
        -- destruct (time_Parse layout ev) as [e|err] eqn:He.
           ++ split.
              ** intros (cs & err & Hret).
                 destruct (chunks_loop fuel (Period ts) s e); discriminate.
              ** intros [[Hl|(v & err & Hv & Hp)]|[Hl|(v & err & Hv & Hp)]];
                   try done; injection Hv as <-; congruence.
           ++ split; [intros _; right; right; eauto | eauto].
        -- split; [intros _; right; left; lia | eauto].
      * split; [intros _; left; right; eauto | eauto].
    + split; [intros _; left; left; lia | eauto].
  - intros cs err.
    destruct (Values_index (URL_Query url) (StartName ts))
      as [|sv [|sv' ss]]; try congruence.
    destruct (time_Parse layout sv) as [s|?]; try congruence.
    destruct (Values_index (URL_Query url) (EndName ts))
      as [|ev [|ev' es]]; try congruence.
    destruct (time_Parse layout ev) as [e|?]; try congruence.
    destruct (chunks_loop fuel (Period ts) s e); discriminate.
  - unfold layout, default_Layout. intros ->. done.
Qed.

Lemma chunks_error_iff_bad_bound_witness :
  (exists cs err,
     snd (chunks (H := ex_collaborators) 5 ex_timeseries ex_url_no_start)
     = Ret (cs, Some err)) /\
  (exists cs err,
     snd (chunks (H := ex_collaborators) 5 ex_timeseries ex_url_bad_start)
     = Ret (cs, Some err)).
Proof.
  split.
  - apply (proj1 (chunks_error_iff_bad_bound (H := ex_collaborators)
                    5 ex_timeseries ex_url_no_start)).
    left. left. vm_compute. discriminate.
  - apply (proj1 (chunks_error_iff_bad_bound (H := ex_collaborators)
                    5 ex_timeseries ex_url_bad_start)).
    left. right. exists "yesterday", "cannot parse yesterday".
    split; vm_compute; reflexivity.
Defined.

(** ** The table resolver *)

Lemma Split_from_nonempty (sep : ascii) (s : string) :
  forall cur, Split_from cur s sep <> [].
Proof.
  induction s as [|c rest IH]; intros cur; simpl; [done|].
  destruct (Ascii.eqb c sep); [done | apply IH].
Qed.

(** The worker finds the name the job declares: indexing the last segment
    does not fail. *)
Lemma last_segment_index `{Collaborators} (job : repoJob) :
  slice_index (path_segments job) (length (path_segments job) - 1)%nat
  = Ret (default "" (last (path_segments job))).
Proof.
  unfold slice_index. rewrite last_lookup.
  replace (length (path_segments job) - 1)%nat
    with (Nat.pred (length (path_segments job))) by lia.
  destruct (path_segments job !! Nat.pred (length (path_segments job)))
    as [x|] eqn:Hlast; [done|].
  apply lookup_ge_None in Hlast.
  pose proof (Split_from_nonempty "/"
                (TrimPrefix (url_EscapedPath (job_url job)) "/") "") as Hne.
  fold (Split (TrimPrefix (url_EscapedPath (job_url job)) "/") "/") in Hne.
  fold (path_segments job) in Hne.
  destruct (path_segments job); [done | simpl in Hlast; lia].
Qed.

(** [repositoryWorker_resolve] in terms of the declared table. *)
Lemma repositoryWorker_resolve_unfold `{Collaborators} (job : repoJob) :
  repositoryWorker_resolve job =
  let table := declared_table job in
  if String.eqb table "candles" then
    if Contains (Host (job_url job)) "coinbase.com" then
      granularity ←
        slice_index (Values_index (URL_Query (job_url job)) "granularity") 0%nat;
      productID ← slice_index (path_segments job) 1%nat;
      Ret (if String.eqb granularity "60" then "candle_minutes" else table,
           Some (encodeCandles productID))
    else Ret (table, None)
  else Ret (table, Some encodeUnchanged).
Proof.
  unfold repositoryWorker_resolve.
  fold (path_segments job). rewrite last_segment_index. simpl.
  unfold declared_table. destruct (job_table job); reflexivity.
Qed.

(** The table of the minute candles of the end-to-end example is not the
    last segment of the path, and not the explicit name either. *)
Lemma resolved_table_counterexample :
  (job_table ex_job = None /\
   declared_table (H := ex_collaborators) ex_job = "candles" /\
   repositoryWorker_resolve (H := ex_collaborators) ex_job
   = Ret ("candle_minutes", Some (encodeCandles "BTC-USD"))) /\
  (job_table ex_job_explicit = Some "candles" /\
   repositoryWorker_resolve (H := ex_collaborators) ex_job_explicit
   = Ret ("candle_minutes", Some (encodeCandles "BTC-USD"))).
Proof. repeat apply conj; vm_compute; reflexivity. Qed.

(** C6, amended. The table resolved for a job is the explicit name when
    it carries one and the last segment of the path of its source URL
    (leading slash stripped) otherwise, unless that name is ["candles"] and
    the host of the URL contains ["coinbase.com"]: a job of that kind whose
    URL has a granularity parameter and a second path segment goes to
    ["candle_minutes"] when the granularity is ["60"], and to ["candles"]
    otherwise. *)
Theorem resolved_table_unless_coinbase_candles `{Collaborators}
    (job : repoJob) :
  (~ coinbase_candles job ->
   exists cb, repositoryWorker_resolve job = Ret (declared_table job, cb)) /\
  (coinbase_candles job ->
   forall granularity more productID,
     Values_index (URL_Query (job_url job)) "granularity"
     = granularity :: more ->
     path_segments job !! 1%nat = Some productID ->
     repositoryWorker_resolve job
     = Ret (if String.eqb granularity "60" then "candle_minutes"
            else "candles",
            Some (encodeCandles productID))).
Proof.
  rewrite repositoryWorker_resolve_unfold. unfold coinbase_candles. simpl.
  split.
  - intros Hnot.
    destruct (String.eqb_spec (declared_table job) "candles") as [Heq|Hne];
      [|eauto].
    destruct (Contains (Host (job_url job)) "coinbase.com") eqn:Hhost;
      [|eauto].
    exfalso. auto.
  - intros [Heq Hhost] granularity more productID Hgran Hprod.
    rewrite Heq, Hhost, Hgran. simpl.
    unfold slice_index. rewrite Hprod. reflexivity.
Qed.

Lemma resolved_table_unless_coinbase_candles_witness :
  (exists cb,
     repositoryWorker_resolve (H := ex_collaborators)
       {| b := []; job_url := ex_url; job_table := Some "my_candles" |}
     = Ret ("my_candles", cb)) /\
  repositoryWorker_resolve (H := ex_collaborators) ex_job
  = Ret ("candle_minutes", Some (encodeCandles "BTC-USD")).
Proof.
  split.
  - apply (proj1 (resolved_table_unless_coinbase_candles
                    (H := ex_collaborators)
                    {| b := []; job_url := ex_url;
                       job_table := Some "my_candles" |})).
    intros [Heq _]. vm_compute in Heq. discriminate.
  - apply (proj2 (resolved_table_unless_coinbase_candles
                    (H := ex_collaborators) ex_job)
             (conj eq_refl eq_refl) "60" [] "BTC-USD").
    + vm_compute. reflexivity.
    + vm_compute. reflexivity.
Defined.

(** C10. The two unguarded index expressions of the resolver can be
    reached: for a job whose table is ["candles"] and whose URL host
    contains ["coinbase.com"], a URL without granularity parameter, or a
    path of fewer than two segments, makes the resolver panic with an
    index out of range, and the storage worker that received the job
    panics with it: no error is returned, nothing is upserted and no
    completion is signalled. *)
Theorem coinbase_candles_unguarded_index `{Collaborators} (job : repoJob)
    (repos : list Repo) (rest : list repoJob) :
  coinbase_candles job ->
  Values_index (URL_Query (job_url job)) "granularity" = [] \/
  (length (path_segments job) < 2)%nat ->
  repositoryWorker_resolve job = Panic "index out of range" /\
  repositoryWorker repos (job :: rest) = ([], Panic "index out of range").
Proof.
  intros [Heq Hhost] Hbad.
  assert (Hres : repositoryWorker_resolve job = Panic "index out of range").
  { rewrite repositoryWorker_resolve_unfold. simpl. rewrite Heq, Hhost. simpl.
    destruct Hbad as [Hgran|Hshort].
    - rewrite Hgran. reflexivity.
    - destruct (Values_index (URL_Query (job_url job)) "granularity")
        as [|g gs]; [reflexivity|]. simpl.
      unfold slice_index at 1.
      rewrite (proj2 (lookup_ge_None (path_segments job) 1%nat)) by lia.
      reflexivity. }
  split; [done|].
  simpl. unfold repositoryWorker_job. rewrite Hres. reflexivity.
Qed.

Lemma coinbase_candles_unguarded_index_witness :
  repositoryWorker (H := ex_collaborators) ["mongodb://one"]
    [ex_job_no_granularity; ex_job] = ([], Panic "index out of range") /\
  repositoryWorker (H := ex_collaborators) ["mongodb://one"]
    [ex_job_short_path; ex_job] = ([], Panic "index out of range").
Proof.
  split.
  - apply (coinbase_candles_unguarded_index (H := ex_collaborators)
             ex_job_no_granularity ["mongodb://one"] [ex_job]).
    + split; vm_compute; reflexivity.
    + left. vm_compute. reflexivity.
  - apply (coinbase_candles_unguarded_index (H := ex_collaborators)
             ex_job_short_path ["mongodb://one"] [ex_job]).
    + split; vm_compute; reflexivity.
    + right. vm_compute. lia.
Defined.

(** ** The workers and their errors *)

Lemma webWorker_app `{Collaborators} (before rest : list flattenedRequest) :
  Forall (fun job => snd (fetched job) = None) before ->
  webWorker (before ++ rest)
  = ((map response before ++ fst (webWorker rest))%list, snd (webWorker rest)).
Proof.
  induction 1 as [|job before Hjob _ IH]; simpl.
  - by destruct (webWorker rest).
  - unfold fetched in Hjob. unfold response at 1, fetched at 1.
    destruct (web_Fetch _ _ _ _) as [payload [err|]]; [done|].
    rewrite IH. reflexivity.
Qed.

Lemma repositoryWorker_app `{Collaborators} (repos : list Repo)
    (before rest : list repoJob) :
  snd (repositoryWorker repos before) = Ret tt ->
  repositoryWorker repos (before ++ rest)
  = ((fst (repositoryWorker repos before)
      ++ fst (repositoryWorker repos rest))%list,
     snd (repositoryWorker repos rest)).
Proof.
  induction before as [|job before IH]; simpl.
  - intros _. by destruct (repositoryWorker repos rest).
  - destruct (repositoryWorker_job repos job) as [evs [[]| | |]]; try done.
    destruct (repositoryWorker repos before) as [evs' r] eqn:Hbefore.
    simpl. intros ->. rewrite IH by done. simpl.
    by rewrite app_assoc.
Qed.

Lemma repositoryWorker_upsert_fails `{Collaborators} (table : string)
    (cb : option encodingCallback) (job : repoJob) (payload : bytes)
    (repo : Repo) (err : error) (more : list Repo) :
  call_encodingCallback cb job = Ret (payload, None) ->
  UpsertJSON repo table payload = Some err ->
  forall stored,
    Forall (fun r => UpsertJSON r table payload = None) stored ->
    repositoryWorker_upsert (stored ++ repo :: more) table cb job
    = (map (fun r => Upserted r table payload) stored, Fatal err).
Proof.
  intros Hcb Hfail. induction 1 as [|r stored Hr _ IH]; simpl.
  - by rewrite Hcb, Hfail.
  - by rewrite Hcb, Hr, IH.
Qed.

(** A fetch worker whose first fetch fails ends the process and leaves the
    job after it unfetched, a job it fetches when it comes first; a storage
    worker whose upsert fails ends the process as well. *)
Lemma workers_fatal_counterexample :
  webWorker (H := ex_collaborators)
    [ex_fetch_job "/unavailable"; ex_fetch_job "/products"]
  = ([], Fatal "503 Service Unavailable") /\
  webWorker (H := ex_collaborators)
    [ex_fetch_job "/products"; ex_fetch_job "/unavailable"]
  = ([ex_products_job], Fatal "503 Service Unavailable") /\
  repositoryWorker (H := ex_collaborators) ["readonly:archive"]
    [ex_products_job; ex_products_job]
  = ([], Fatal "read-only storage").
Proof. split; [|split]; reflexivity. Qed.

(** C3, amended. A worker handles a per-job error by calling [Fatal] on
    the logger, which ends the host process: a fetch worker at the first
    fetch that fails, a storage worker at the first encoding or upsert that
    fails. What the worker did before stays done (the responses sent on,
    the upserts completed); the failing job is not sent on or signalled as
    done, and the jobs after it are not processed. *)
Theorem workers_exit_on_first_error `{Collaborators} :
  (forall before job after payload err,
     Forall (fun j => snd (fetched j) = None) before ->
     fetched job = (payload, Some err) ->
     webWorker (before ++ job :: after) = (map response before, Fatal err)) /\
  (forall repos before job after evs err,
     snd (repositoryWorker repos before) = Ret tt ->
     repositoryWorker_job repos job = (evs, Fatal err) ->
     repositoryWorker repos (before ++ job :: after)
     = ((fst (repositoryWorker repos before) ++ evs)%list, Fatal err)) /\
  (forall repo more job table cb payload err,
     repositoryWorker_resolve job = Ret (table, cb) ->
     call_encodingCallback cb job = Ret (payload, Some err) ->
     repositoryWorker_job (repo :: more) job = ([], Fatal err)) /\
  (forall stored repo more job table cb payload err,
     repositoryWorker_resolve job = Ret (table, cb) ->
     call_encodingCallback cb job = Ret (payload, None) ->
     Forall (fun r => UpsertJSON r table payload = None) stored ->
     UpsertJSON repo table payload = Some err ->
     repositoryWorker_job (stored ++ repo :: more) job
     = (map (fun r => Upserted r table payload) stored, Fatal err)).
Proof.
  split; [|split; [|split]].
  - intros before job after payload err Hbefore Hjob.
    rewrite webWorker_app by done. simpl.
    unfold fetched in Hjob. rewrite Hjob. simpl. by rewrite app_nil_r.
  - intros repos before job after evs err Hbefore Hjob.
    rewrite repositoryWorker_app by done. simpl. by rewrite Hjob.
  - intros repo more job table cb payload err Hres Hcb.
    unfold repositoryWorker_job. rewrite Hres. simpl. by rewrite Hcb.
  - intros stored repo more job table cb payload err Hres Hcb Hstored Hfail.
    unfold repositoryWorker_job. rewrite Hres.
    by rewrite (repositoryWorker_upsert_fails _ _ _ _ _ _ _ Hcb Hfail).
Qed.

Lemma workers_exit_on_first_error_witness :
  webWorker (H := ex_collaborators)
    ([ex_fetch_job "/products"]
       ++ ex_fetch_job "/unavailable" :: [ex_fetch_job "/currencies"])
  = ([ex_products_job], Fatal "503 Service Unavailable") /\
  repositoryWorker_job (H := ex_collaborators)
    (["mongodb://one"] ++ "readonly:archive" :: ["postgresql://two"])
    ex_products_job
  = ([Upserted "mongodb://one" "products" [Byte.x5b; Byte.x5d]],
     Fatal "read-only storage") /\
  repositoryWorker_job (H := ex_collaborators) ["mongodb://one"]
    {| b := []; job_url := ex_url; job_table := None |}
  = ([], Fatal "unexpected end of JSON input").
Proof.
  destruct (workers_exit_on_first_error (H := ex_collaborators))
    as (Hweb & _ & Hencode & Hupsert).
  split; [|split].
  - apply (Hweb [ex_fetch_job "/products"] (ex_fetch_job "/unavailable")
             [ex_fetch_job "/currencies"] []).
    + repeat constructor.
    + reflexivity.
  - apply (Hupsert ["mongodb://one"] "readonly:archive" ["postgresql://two"]
             ex_products_job "products" (Some encodeUnchanged)
             [Byte.x5b; Byte.x5d]).
    + vm_compute. reflexivity.
    + reflexivity.
    + repeat constructor.
    + reflexivity.
  - apply (Hencode "mongodb://one" [] _ "candle_minutes"
             (Some (encodeCandles "BTC-USD")) []).
    + vm_compute. reflexivity.
    + reflexivity.
Defined.

(** ** Connecting *)

(** Without API key the run goes on: [connect] reports no error, and the
    request of the example is flattened into its two chunks. *)
Lemma connect_without_key_counterexample :
  connect (H := ex_collaborators) (ex_config None [ex_request]) = (None, None) /\
  returned_error
    (snd (Upsert_flatten (H := ex_collaborators) 2 0
            (ex_config None [ex_request]))) = None /\
  length <$> flattened
    (snd (Upsert_flatten (H := ex_collaborators) 2 0
            (ex_config None [ex_request]))) = Some 2%nat.
Proof. split; [|split]; vm_compute; reflexivity. Qed.

(** C5, amended. On a configuration that passes validation: when an API
    key is configured and no client can be built from it, [Upsert] returns
    the connection error and flattens nothing; when no API key is
    configured, [connect] returns no client and no error, and [Upsert]
    goes on to build the repositories and to flatten the requests with a
    nil client. *)
Theorem Upsert_connect_error `{Collaborators} (fuel next : nat)
    (cfg : Config) :
  Config_validate cfg = None ->
  (forall k client err,
     apiKey (cfg_Authentication cfg) = Some k ->
     web_NewClient (cfg_URL cfg) k = (client, Some err) ->
     Upsert_flatten fuel next cfg
     = (Requests cfg, Ret (inr ("unable to connect to client: " +:+ err)))) /\
  (apiKey (cfg_Authentication cfg) = None ->
   connect cfg = (None, None) /\
   forall repos,
     repositories cfg = inl repos ->
     exists rl,
       Upsert_flatten fuel next cfg
       = Upsert_requests fuel cfg None rl (Requests cfg)).
Proof.
  intros Hvalid. split.
  - intros k client err Hkey Hnew.
    unfold Upsert_flatten, connect. by rewrite Hvalid, Hkey, Hnew.
  - intros Hkey. unfold Upsert_flatten, connect. rewrite Hvalid, Hkey.
    split; [done|]. intros repos ->.
    unfold Config_validate, RateLimitConfig_validate in Hvalid.
    destruct (cfg_RateLimitConfig cfg) as [[[burst|] [period|]]|]; try done.
    eauto.
Qed.

Lemma Upsert_connect_error_witness :
  Upsert_flatten (H := ex_collaborators) 2 0
    (ex_config (Some {| Passphrase := "passphrase"; Key := "key";
                        Secret := "" |}) [ex_request])
  = ([ex_request], Ret (inr "unable to connect to client: invalid secret")) /\
  connect (H := ex_collaborators) (ex_config None [ex_request]) = (None, None).
Proof.
  split.
  - apply (proj1 (Upsert_connect_error (H := ex_collaborators) 2 0
                    (ex_config (Some {| Passphrase := "passphrase";
                                        Key := "key"; Secret := "" |})
                       [ex_request]) eq_refl)
             {| Passphrase := "passphrase"; Key := "key"; Secret := "" |}
             None "invalid secret"); reflexivity.
  - apply (proj2 (Upsert_connect_error (H := ex_collaborators) 2 0
                    (ex_config None [ex_request]) eq_refl)).
    reflexivity.
Defined.

(** ** Flattening *)

(** The query after the request's parameters are applied: a parameter of
    the request has the request's value as its one value, any other keeps
    the values of the URL. *)
Lemma set_all_lookup (q : gmap string string) (query : Values) (key : string) :
  set_all q query !! key
  = match q !! key with
    | Some value => Some [value]
    | None => query !! key
    end.
Proof.
  unfold set_all.
  apply (map_fold_weak_ind
           (fun (acc : Values) (m : gmap string string) =>
              acc !! key = match m !! key with
                           | Some value => Some [value]
                           | None => query !! key
                           end)).
  - by rewrite lookup_empty.
  - intros n v m acc Hfresh IH. unfold Values_Set.
    destruct (decide (n = key)) as [->|Hne].
    + by rewrite !lookup_insert_eq.
    + by rewrite !lookup_insert_ne.
Qed.

Lemma set_all_index (q : gmap string string) (query : Values)
    (key value : string) :
  q !! key = Some value -> Values_index (set_all q query) key = [value].
Proof.
  intros Hkey. unfold Values_index. by rewrite set_all_lookup, Hkey.
Qed.

(** Whether the URL of a request can be built does not depend on its
    query: the chunk requests of a request that has a fetch configuration
    have one too. *)
Lemma newFetchConfig_with_Query `{Collaborators} (cfg : Config)
    (req : Request) (client : option Client) (rl : Limiter)
    (fc : FetchConfig) (q : option (gmap string string)) :
  newFetchConfig cfg req client rl = inl fc ->
  exists fc', newFetchConfig cfg (with_Query req q) client rl = inl fc' /\
              fc_RateLimiter fc' = rl.
Proof.
  unfold newFetchConfig. simpl.
  destruct (url_JoinPath (cfg_URL cfg) (Endpoint req)) as [rawURL|]; [|done].
  destruct (url_Parse rawURL) as [u|]; [|done]. eauto.
Qed.

Lemma newFetchConfig_URL_query `{Collaborators} (cfg : Config)
    (req : Request) (client : option Client) (rl : Limiter)
    (fc : FetchConfig) (q : gmap string string) (key value : string) :
  newFetchConfig cfg req client rl = inl fc ->
  Query req = Some q ->
  q !! key = Some value ->
  Values_index (URL_Query (fc_URL fc)) key = [value].
Proof.
  unfold newFetchConfig. intros Hfc Hq Hkey.
  destruct (url_JoinPath (cfg_URL cfg) (Endpoint req)) as [rawURL|]; [|done].
  destruct (url_Parse rawURL) as [u|]; [|done].
  rewrite Hq in Hfc. injection Hfc as <-. simpl.
  unfold URL_Query at 1. simpl. by apply set_all_index.
Qed.

(** The chunk loop of [Upsert] on a request with a query map, a layout and
    a URL that can be built: one flattened request per chunk, each with the
    limiter of the run. *)
Lemma Upsert_chunks_length `{Collaborators} (cfg : Config)
    (client : option Client) (rl : Limiter) (ts : timeseries)
    (layout : string) (cs : list timeRange) :
  Layout ts = Some layout ->
  forall (req : Request) (q : gmap string string) (fc : FetchConfig),
    Query req = Some q ->
    newFetchConfig cfg req client rl = inl fc ->
    exists req' frs,
      Upsert_chunks cfg client rl ts req cs = (req', Ret (inl frs)) /\
      length frs = length cs /\
      Forall (fun fr => fc_RateLimiter (fetchConfig fr) = rl) frs.
Proof.
  intros Hlayout. induction cs as [|c cs IH]; intros req q fc Hq Hfc; simpl.
  - exists req, []. by repeat split.
  - rewrite Hlayout, Hq.
    set (q' := <[EndName ts := _]> (<[StartName ts := _]> q)).
    destruct (newFetchConfig_with_Query cfg req client rl fc (Some q') Hfc)
      as (fc' & Hfc' & Hrl).
    rewrite Hfc'.
    destruct (IH (with_Query req (Some q')) q' fc' eq_refl Hfc')
      as (req' & frs & Hrun & Hlen & Hall).
    rewrite Hrun. eexists _, _. split; [reflexivity|]. simpl.
    split; [by rewrite Hlen|]. by constructor.
Qed.

(** A range of exactly [k] steps is cut into [k] chunks. *)
Lemma chunks_loop_full_periods (p : Z) :
  0 < Duration_mul Second p ->
  forall (k fuel : nat) (s : Time),
    (k <= fuel)%nat ->
    exists cs,
      chunks_loop fuel p s (s + Z.of_nat k * Duration_mul Second p) = Ret cs /\
      length cs = k.
Proof.
  intros Hstep. set (step := Duration_mul Second p) in *.
  induction k as [|k IH]; intros fuel s Hfuel.
  - exists []. split; [|done]. apply chunks_loop_not_before. lia.
  - destruct fuel as [|fuel]; [lia|]. simpl. unfold Before at 1.
    destruct (Z.ltb_spec s (s + Z.of_nat (S k) * step)) as [_|?]; [|lia].
    fold step. unfold Add.
    destruct (IH fuel (s + step)) as (cs & Hcs & Hlen); [lia|].
    replace (s + Z.of_nat (S k) * step) with (s + step + Z.of_nat k * step)
      by lia.
    rewrite Hcs. simpl. eexists. split; [reflexivity|]. simpl. by rewrite Hlen.
Qed.

(** The count of flattened requests where the flattening runs through.
    A request without timeseries is flattened into exactly one request,
    in the request loop of [Upsert] (when its URL can be built) and in
    [flattenTimeseries] (when its rate limit is configured). A request
    with a timeseries whose own query map gives a start and an end that
    lie exactly [k] periods apart is flattened by [Upsert] into exactly
    [k] requests, one per chunk. *)
Theorem flattened_request_count `{Collaborators} (cfg : Config)
    (client : option Client) (rl : Limiter) (req : Request)
    (fc : FetchConfig) :
  newFetchConfig cfg req client rl = inl fc ->
  (Timeseries req = None ->
   forall fuel,
     Upsert_request fuel cfg client rl req
     = (req, Ret (inl [{| fetchConfig := fc; table := Table req |}]))) /\
  (forall ts q startValue endValue s k,
     Timeseries req = Some ts ->
     Query req = Some q ->
     q !! StartName ts = Some startValue ->
     q !! EndName ts = Some endValue ->
     time_Parse (default_Layout ts) startValue = inl s ->
     time_Parse (default_Layout ts) endValue
     = inl (s + Z.of_nat k * (Period ts * Second)) ->
     0 < Period ts ->
     int32_range (Period ts) ->
     forall fuel, (k <= fuel)%nat ->
       exists req' frs,
         Upsert_request fuel cfg client rl req = (req', Ret (inl frs)) /\
         length frs = k) /\
  (forall (C : Type) time_Format path_Join chunk next (r : RequestGo.Request)
          rurl (c : option C) burst period,
     RequestGo.Timeseries r = None ->
     RequestGo.RateLimitConfig r
     = Some {| Burst := Some burst; rl_Period := Some period |} ->
     exists fr,
       snd (RequestGo.flattenTimeseries C time_Format path_Join chunk
              next r rurl c) = Ret ([fr], None)).
Proof.
  intros Hfc. split; [|split].
  - intros Hts fuel. unfold Upsert_request. by rewrite Hfc, Hts.
  - intros ts q sv ev s k Hts Hq Hsv Hev Hs He Hpos Hrange fuel Hfuel.
    pose proof (Duration_of_Period _ Hrange) as Hstep.
    destruct (chunks_loop_full_periods (Period ts) ltac:(lia) k fuel s Hfuel)
      as (cs & Hcs & Hlen).
    unfold Upsert_request. rewrite Hfc, Hts. unfold chunks. simpl.
    rewrite (newFetchConfig_URL_query _ _ _ _ _ _ _ _ Hfc Hq Hsv), Hs.
    rewrite (newFetchConfig_URL_query _ _ _ _ _ _ _ _ Hfc Hq Hev), He.
    unfold Second in *.
    replace (Period ts * 1000000000)
      with (Duration_mul 1000000000 (Period ts)) by lia.
    rewrite Hcs. simpl.
    set (ts' := with_Layout ts (Some (default_Layout ts))).
    destruct (Upsert_chunks_length cfg client rl ts' (default_Layout ts) cs
                eq_refl (with_Timeseries req (Some ts')) q fc Hq Hfc)
      as (req' & frs & Hrun & Hlen' & _).
    exists req', frs. split; [done | congruence].
  - intros C tf pj chunk next r rurl c burst period Hts Hrl.
    unfold RequestGo.flattenTimeseries, RequestGo.flatten,
      RequestGo.newFetchConfig.
    rewrite Hts, Hrl. simpl. eauto.
Qed.

Lemma flattened_request_count_witness :
  Upsert_request (H := ex_collaborators) 0 (ex_config None [ex_request_plain])
    None ex_limiter ex_request_plain
  = (ex_request_plain,
     Ret (inl [{| fetchConfig := ex_fetchConfig; table := None |}])) /\
  exists req' frs,
    Upsert_request (H := ex_collaborators) 2 (ex_config None [ex_request])
      None ex_limiter ex_request = (req', Ret (inl frs)) /\
    length frs = 2%nat.
Proof.
  split.
  - apply (proj1 (flattened_request_count (H := ex_collaborators)
                    (ex_config None [ex_request_plain]) None ex_limiter
                    ex_request_plain ex_fetchConfig eq_refl)).
    reflexivity.
  - apply (proj1 (proj2 (flattened_request_count (H := ex_collaborators)
                           (ex_config None [ex_request]) None ex_limiter
                           ex_request ex_fetchConfig eq_refl))
             ex_timeseries ex_query
             "2023-01-01T00:00:00Z" "2023-01-01T02:00:00Z"
             1672531200000000000 2%nat).
    + reflexivity.
    + reflexivity.
    + vm_compute. reflexivity.
    + vm_compute. reflexivity.
    + vm_compute. reflexivity.
    + vm_compute. reflexivity.
    + simpl. lia.
    + unfold int32_range. simpl. lia.
    + lia.
Defined.

(** ** The query map of the request under flattening *)

(** After the chunk loop of [Upsert] has run over at least one chunk, the
    query map of the request itself holds the end of the last chunk. *)
Lemma Upsert_chunks_last_bounds `{Collaborators} (cfg : Config)
    (client : option Client) (rl : Limiter) (ts : timeseries)
    (layout : string) (c : timeRange) :
  Layout ts = Some layout ->
  forall cs req req' frs,
    Upsert_chunks cfg client rl ts req (cs ++ [c]) = (req', Ret (inl frs)) ->
    exists q', Query req' = Some q' /\
               q' !! EndName ts = Some (time_Format layout (snd c)).
Proof.
  intros Hlayout. induction cs as [|c0 cs IH]; intros req req' frs; simpl.
  - rewrite Hlayout. destruct (Query req) as [q|]; [|done].
    destruct (newFetchConfig _ _ _ _) as [fc|]; [|done].
    intros [= <- _]. simpl. eexists. split; [reflexivity|].
    by rewrite lookup_insert_eq.
  - rewrite Hlayout. destruct (Query req) as [q|]; [|done].
    destruct (newFetchConfig _ _ _ _) as [fc|]; [|done].
    destruct (Upsert_chunks _ _ _ _ _ (cs ++ [c])) as [r' [[frs'|]| | |]]
      eqn:Hrest; try done.
    intros [= <- _]. by eapply IH.
Qed.

(** C2: the code at a request of two chunks. [Upsert] leaves the query
    map of the request it was given with the start of the second chunk in
    place of the start of the range, and its timeseries with the default
    layout written into it: the chunk requests are not copies, the bounds
    of each chunk are written into the one map of the request. *)
Theorem Upsert_overwrites_request_query :
  let run := Upsert_flatten (H := ex_collaborators) 2 0
               (ex_config None [ex_request]) in
  length <$> flattened (snd run) = Some 2%nat /\
  Query ex_request = Some ex_query /\
  ex_query !! "start" = Some "2023-01-01T00:00:00Z" /\
  map Query (fst run)
  = [Some (<["start" := "2023-01-01T01:00:00Z"]> ex_query)] /\
  map Timeseries (fst run)
  = [Some (with_Layout ex_timeseries (Some RFC3339))].
Proof. intros run. subst run. repeat apply conj; reflexivity. Qed.

(** ** The rate limiter of the flattened requests *)

Lemma newFetchConfig_limiter `{Collaborators} (cfg : Config) (req : Request)
    (client : option Client) (rl : Limiter) (fc : FetchConfig) :
  newFetchConfig cfg req client rl = inl fc -> fc_RateLimiter fc = rl.
Proof.
  unfold newFetchConfig.
  destruct (url_JoinPath _ _); [|done].
  destruct (url_Parse _); [|done]. by intros [= <-].
Qed.

Lemma Upsert_chunks_limiter `{Collaborators} (cfg : Config)
    (client : option Client) (rl : Limiter) (ts : timeseries) :
  forall cs req req' frs,
    Upsert_chunks cfg client rl ts req cs = (req', Ret (inl frs)) ->
    Forall (fun fr => fc_RateLimiter (fetchConfig fr) = rl) frs.
Proof.
  induction cs as [|c cs IH]; intros req req' frs; simpl.
  - intros [= _ <-]. constructor.
  - destruct (Layout ts) as [layout|]; [|done].
    destruct (Query req) as [q|]; [|done].
    destruct (newFetchConfig _ _ _ _) as [fc|] eqn:Hfc; [|done].
    destruct (Upsert_chunks _ _ _ _ _ cs) as [r' [[frs'|]| | |]]
      eqn:Hrest; try done.
    intros [= _ <-]. constructor; [|by eapply IH].
    simpl. by eapply newFetchConfig_limiter.
Qed.

Lemma Upsert_requests_limiter `{Collaborators} (fuel : nat) (cfg : Config)
    (client : option Client) (rl : Limiter) :
  forall reqs reqs' frs,
    Upsert_requests fuel cfg client rl reqs = (reqs', Ret (inl frs)) ->
    Forall (fun fr => fc_RateLimiter (fetchConfig fr) = rl) frs.
Proof.
  induction reqs as [|req rest IH]; intros reqs' frs; simpl.
  - intros [= _ <-]. constructor.
  - destruct (Upsert_request fuel cfg client rl req)
      as [req' [[frs1|]| | |]] eqn:Hreq; try done.
    destruct (Upsert_requests fuel cfg client rl rest)
      as [rest' [[frs2|]| | |]] eqn:Hrest; try done.
    intros [= _ <-]. apply Forall_app. split; [|by eapply IH].
    unfold Upsert_request in Hreq.
    destruct (newFetchConfig cfg req client rl) as [fc|] eqn:Hfc; [|done].
    destruct (Timeseries req) as [ts|].
    + destruct (chunks fuel ts (fc_URL fc)) as [ts' [[cs [e|]]| | |]];
        try done.
      by eapply Upsert_chunks_limiter.
    + injection Hreq as _ <-. constructor; [|constructor]. simpl.
      by eapply newFetchConfig_limiter.
Qed.

(** In [Upsert] the limiter is made once, before the request loop: every
    flattened request of the run refers to that one limiter. *)
Lemma Upsert_flatten_one_limiter `{Collaborators} (fuel next : nat)
    (cfg : Config) (reqs : list Request) (frs : list flattenedRequest) :
  Upsert_flatten fuel next cfg = (reqs, Ret (inl frs)) ->
  exists rl,
    lim_id rl = next /\
    Forall (fun fr => fc_RateLimiter (fetchConfig fr) = rl) frs.
Proof.
  unfold Upsert_flatten.
  destruct (Config_validate cfg); [done|].
  destruct (connect cfg) as [client [err|]]; [done|].
  destruct (repositories cfg); [|done].
  destruct (cfg_RateLimitConfig cfg) as [[[burst|] [period|]]|]; try done.
  intros Hrun. eexists. split; [|by eapply Upsert_requests_limiter]. done.
Qed.

(** In the later [flattenTimeseries] every chunk request gets a limiter
    of its own: the limiters of the flattened requests are as many new
    ones as there are chunks. *)
Lemma flattenTimeseries_loop_limiters (C : Type)
    (time_Format : string -> Time -> string)
    (path_Join : string -> string -> string)
    (ts : RequestGo.timeseries) (rurl : URL) (client : option C) :
  forall cs next req next' req' frs,
    RequestGo.flattenTimeseries_loop C time_Format path_Join
      next ts req rurl client cs = (next', req', Ret frs) ->
    limiter_ids frs = seq next (length cs).
Proof.
  induction cs as [|c cs IH]; intros next req next' req' frs; simpl.
  - intros [= _ _ <-]. done.
  - destruct (RequestGo.Layout ts) as [layout|]; [|done].
    destruct (RequestGo.Query req) as [q|]; [|done].
    unfold RequestGo.newFetchConfig. simpl.
    destruct (RequestGo.RateLimitConfig req) as [[[burst|] [period|]]|];
      try done.
    destruct (RequestGo.flattenTimeseries_loop _ _ _ (S next) _ _ _ _ cs)
      as [[n r] [frs'| | |]] eqn:Hrest; try done.
    intros [= _ _ <-]. simpl. f_equal. by eapply IH.
Qed.

(** C4: the code at a request of two chunks. The two requests that
    [flattenTimeseries] returns hold two different limiters, each made by
    the call of [newFetchConfig] for its chunk; in [Upsert] of
    [transport.go] all flattened requests hold the one limiter of the run
    ([Upsert_flatten_one_limiter]). *)
Theorem flattenTimeseries_limiter_per_chunk :
  match ex_flattenTimeseries 2 0 ex_request_go with
  | (next, _, Ret (frs, err)) =>
      err = None /\ limiter_ids frs = [0%nat; 1%nat] /\ next = 2%nat
  | _ => False
  end.
Proof. vm_compute. repeat split. Qed.

(** ** The end-to-end example *)

(** A request whose bounds come with the base URL has no query map of its
    own: the first chunk makes the chunk loop of [Upsert] panic. *)
Lemma Upsert_chunks_nil_query `{Collaborators} (cfg : Config)
    (client : option Client) (rl : Limiter) (ts : timeseries)
    (layout : string) (req : Request) (c : timeRange) (cs : list timeRange) :
  Layout ts = Some layout ->
  Query req = None ->
  Upsert_chunks cfg client rl ts req (c :: cs)
  = (req, Panic "assignment to entry in nil map").
Proof. intros Hlayout Hq. simpl. by rewrite Hlayout, Hq. Qed.

(** Two hours of minute candles, period one hour, two storage targets: two
    flattened requests, two fetches, four upserts into the table of the
    minute candles, two completion signals. *)
Example end_to_end_run :
  match snd (Upsert_flatten (H := ex_collaborators) 2 0
               (ex_config None [ex_request])) with
  | Ret (inl frs) =>
      length frs = 2%nat /\
      match webWorker frs with
      | (jobs, Ret _) =>
          length jobs = 2%nat /\
          repositoryWorker ["mongodb://one"; "postgresql://two"] jobs
          = ([Upserted "mongodb://one" "candle_minutes" [Byte.x5b; Byte.x5d];
              Upserted "postgresql://two" "candle_minutes" [Byte.x5b; Byte.x5d];
              Done;
              Upserted "mongodb://one" "candle_minutes" [Byte.x5b; Byte.x5d];
              Upserted "postgresql://two" "candle_minutes" [Byte.x5b; Byte.x5d];
              Done], Ret tt)
      | _ => False
      end
  | _ => False
  end.
Proof. repeat apply conj; reflexivity. Qed.

(** * Further properties of the code *)

(** ** The chunker: closed form and non-positive periods *)

Lemma chunk_count_step (s e step : Z) :
  0 < step -> s < e ->
  chunk_count s e step = S (chunk_count (s + step) e step).
Proof.
  intros Hstep Hlt. unfold chunk_count.
  replace (e - s + step - 1) with ((e - (s + step) + step - 1) + 1 * step)
    by lia.
  rewrite Z.div_add by lia.
  assert (0 <= (e - (s + step) + step - 1) / step)
    by (apply Z.div_pos; lia).
  rewrite Z2Nat.inj_add by lia. simpl. lia.
Qed.

Lemma chunk_count_not_before (s e step : Z) :
  0 < step -> e <= s -> chunk_count s e step = 0%nat.
Proof.
  intros Hstep Hle. unfold chunk_count.
  assert ((e - s + step - 1) / step <= 0); [|lia].
  assert ((e - s + step - 1) / step < 1); [|lia].
  apply Z.div_lt_upper_bound; lia.
Qed.

Lemma chunks_loop_closed_form (p : Z) :
  let step := Duration_mul Second p in
  0 < step ->
  forall fuel s e,
    (chunk_count s e step <= fuel)%nat ->
    chunks_loop fuel p s e
    = Ret (map (chunk_at s e step) (seq 0 (chunk_count s e step))).
Proof.
  intros step Hstep. induction fuel as [|fuel IH]; intros s e Hfuel.
  - simpl. unfold Before. destruct (Z.ltb_spec s e) as [Hlt|Hge].
    + rewrite chunk_count_step in Hfuel by done. lia.
    + by rewrite chunk_count_not_before.
  - simpl. unfold Before at 1. destruct (Z.ltb_spec s e) as [Hlt|Hge].
    2:{ by rewrite chunk_count_not_before. }
    fold step. unfold Add.
    rewrite chunk_count_step in * by done.
    rewrite IH by lia. simpl. f_equal. f_equal.
    + unfold chunk_at, Before. simpl.
      destruct (Z.ltb_spec (s + step) e); f_equal; lia.
    + rewrite <- seq_shift, map_map. apply map_ext. intros i.
      unfold chunk_at. f_equal; [|f_equal]; lia.
Qed.

(** X1. With bounds that parse to [s] and [e] and a positive period of
    [step] nanoseconds, [chunks] returns the intervals
    [(s + i * step, min (s + (i + 1) * step) e)] for [i] from 0 up to the
    number of steps needed to reach [e], the quotient of [e - s] by [step]
    rounded up (none when [e] is not after [s]). *)
Theorem chunks_closed_form `{Collaborators} (ts : timeseries) (url : URL)
    (startValue endValue : string) (s e : Time) :
  Values_index (URL_Query url) (StartName ts) = [startValue] ->
  Values_index (URL_Query url) (EndName ts) = [endValue] ->
  time_Parse (default_Layout ts) startValue = inl s ->
  time_Parse (default_Layout ts) endValue = inl e ->
  0 < Period ts ->
  int32_range (Period ts) ->
  let step := Period ts * Second in
  let n := chunk_count s e step in
  forall fuel, (n <= fuel)%nat ->
    snd (chunks fuel ts url) = Ret (map (chunk_at s e step) (seq 0 n), None).
Proof.
  intros Hstart Hend Hs He Hpos Hrange step n fuel Hfuel.
  pose proof (Duration_of_Period _ Hrange) as Hstep.
  assert (Heq : Duration_mul Second (Period ts) = step)
    by (rewrite Hstep; unfold step, Second; lia).
  unfold chunks. simpl. rewrite Hstart, Hs, Hend, He.
  pose proof (chunks_loop_closed_form (Period ts)) as Hloop. simpl in Hloop.
  rewrite Heq in Hloop. rewrite Hloop; [done | unfold step, Second; lia | done].
Qed.

Lemma chunks_closed_form_witness :
  snd (chunks (H := ex_collaborators) 2 ex_timeseries ex_url)
  = Ret (map (chunk_at 1672531200000000000 1672538400000000000
                (3600 * Second))
           (seq 0 (chunk_count 1672531200000000000 1672538400000000000
                     (3600 * Second))), None).
Proof.
  apply (chunks_closed_form (H := ex_collaborators) ex_timeseries ex_url
           "2023-01-01T00:00:00Z" "2023-01-01T02:00:00Z"
           1672531200000000000 1672538400000000000).
  - vm_compute. reflexivity.
  - vm_compute. reflexivity.
  - vm_compute. reflexivity.
  - vm_compute. reflexivity.
  - simpl. lia.
  - unfold int32_range. simpl. lia.
  - vm_compute. lia.
Defined.

Lemma chunks_loop_never_ends (p : Z) :
  Duration_mul Second p <= 0 ->
  forall fuel s e, s < e -> chunks_loop fuel p s e = NoFuel.
Proof.
  intros Hstep. induction fuel as [|fuel IH]; intros s e Hlt; simpl;
    unfold Before at 1; destruct (Z.ltb_spec s e); try lia; [done|].
  rewrite IH; [done | unfold Add; lia].
Qed.

(** X2. With bounds that parse to [s] before [e] and a period that is
    zero (the value of a period left out of the configuration) or
    negative, the loop of [chunks] does not end: whatever the fuel, the
    call has not returned. *)
Theorem chunks_diverges_on_nonpositive_period `{Collaborators}
    (ts : timeseries) (url : URL) (startValue endValue : string)
    (s e : Time) :
  Values_index (URL_Query url) (StartName ts) = [startValue] ->
  Values_index (URL_Query url) (EndName ts) = [endValue] ->
  time_Parse (default_Layout ts) startValue = inl s ->
  time_Parse (default_Layout ts) endValue = inl e ->
  s < e ->
  Period ts <= 0 ->
  int32_range (Period ts) ->
  forall fuel, snd (chunks fuel ts url) = NoFuel.
Proof.
  intros Hstart Hend Hs He Hlt Hneg Hrange fuel.
  pose proof (Duration_of_Period _ Hrange) as Hstep.
  unfold chunks. simpl. rewrite Hstart, Hs, Hend, He.
  rewrite chunks_loop_never_ends; [done | lia | done].
Qed.

Lemma chunks_diverges_on_nonpositive_period_witness :
  snd (chunks (H := ex_collaborators) 500
         {| StartName := "start"; EndName := "end"; Period := 0;
            Layout := None |} ex_url) = NoFuel.
Proof.
  apply (chunks_diverges_on_nonpositive_period (H := ex_collaborators)
           {| StartName := "start"; EndName := "end"; Period := 0;
              Layout := None |} ex_url
           "2023-01-01T00:00:00Z" "2023-01-01T02:00:00Z"
           1672531200000000000 1672538400000000000).
  - vm_compute. reflexivity.
  - vm_compute. reflexivity.
  - vm_compute. reflexivity.
  - vm_compute. reflexivity.
  - lia.
  - simpl. lia.
  - unfold int32_range. simpl. lia.
Defined.

(** ** Validation, repositories and fetch configurations *)

(** X3. A configuration passes validation exactly when its rate limit is
    present with a burst and a period; otherwise [Upsert] returns the
    validation error at once, whatever the collaborators would answer, and
    leaves the requests as they are. A rate limit that lacks its burst is
    reported for the burst, also when the period is missing too. *)
Theorem Upsert_validates_first `{Collaborators} (cfg : Config) :
  (Config_validate cfg = None <->
   complete_rate_limit (cfg_RateLimitConfig cfg)) /\
  (forall err fuel next,
     Config_validate cfg = Some err ->
     Upsert_flatten fuel next cfg = (Requests cfg, Ret (inr err))) /\
  (forall rl,
     cfg_RateLimitConfig cfg = Some rl ->
     Burst rl = None ->
     Config_validate cfg
     = Some (fmt_q "Burst"
             +:+ " is a required field on transport.RateLimitConfig")).
Proof.
  unfold Config_validate, RateLimitConfig_validate, complete_rate_limit.
  split; [|split].
  - destruct (cfg_RateLimitConfig cfg) as [[[burst|] [period|]]|]; simpl;
      split; try done; try (intros (? & ? & ?); done). eauto.
  - intros err fuel next Herr. unfold Upsert_flatten, Config_validate,
      RateLimitConfig_validate. by rewrite Herr.
  - intros rl -> Hburst. by rewrite Hburst.
Qed.

Lemma Upsert_validates_first_witness :
  Upsert_flatten (H := ex_collaborators) 2 0 ex_config_no_rate_limit
  = ([ex_request],
     Ret (inr (fmt_q "RateLimitConfig"
               +:+ " is a required field on transport.Config"))).
Proof.
  apply (proj1 (proj2 (Upsert_validates_first (H := ex_collaborators)
                         ex_config_no_rate_limit))).
  reflexivity.
Defined.

Lemma repositories_loop_Forall2 `{Collaborators} (dnsList : list string) :
  forall repos,
    repositories_loop dnsList = inl repos <->
    Forall2 (fun dns repo => storage_New dns = inl repo) dnsList repos.
Proof.
  induction dnsList as [|dns rest IH]; intros repos; simpl.
  - split; [intros [= <-]; constructor | by inversion 1].
  - destruct (storage_New dns) as [repo|err] eqn:Hnew.
    + destruct (repositories_loop rest) as [repos'|err] eqn:Hrest.
      * split.
        -- intros [= <-]. constructor; [done | by apply IH].
        -- inversion 1 as [|? r ? rs Hr Hrs]; subst.
           apply IH in Hrs. congruence.
      * split; [done|]. inversion 1 as [|? r ? rs Hr Hrs]; subst.
        apply IH in Hrs. done.
    + split; [done|]. inversion 1; congruence.
Qed.

(** X4. [repositories] returns a repository for every entry of the DNS
    list, in the order of the list, exactly when every entry can be opened.
    It stops at the first entry that cannot, with the error of that entry
    under the prefix of the function, and [Upsert] returns this error
    without flattening any request. *)
Theorem repositories_all_or_first_error `{Collaborators} (cfg : Config) :
  (forall repos,
     repositories cfg = inl repos <->
     Forall2 (fun dns repo => storage_New dns = inl repo)
       (DNSList cfg) repos) /\
  (forall opened dns rest err,
     DNSList cfg = (opened ++ dns :: rest)%list ->
     Forall (fun d => exists repo, storage_New d = inl repo) opened ->
     storage_New dns = inr err ->
     repositories cfg
     = inr ("error building repositories for transport config: " +:+ err)) /\
  (forall err client fuel next,
     Config_validate cfg = None ->
     connect cfg = (client, None) ->
     repositories cfg = inr err ->
     Upsert_flatten fuel next cfg = (Requests cfg, Ret (inr err))).
Proof.
  split; [|split].
  - intros repos. apply repositories_loop_Forall2.
  - unfold repositories. intros opened dns rest err -> Hopened Herr.
    induction Hopened as [|d opened [repo Hd] _ IH]; simpl.
    + by rewrite Herr.
    + by rewrite Hd, IH.
  - intros err client fuel next Hvalid Hconnect Hrepos.
    unfold Upsert_flatten. by rewrite Hvalid, Hconnect, Hrepos.
Qed.

Lemma repositories_all_or_first_error_witness :
  repositories (H := ex_collaborators) ex_config_bad_storage
  = inr "error building repositories for transport config: empty dns" /\
  Upsert_flatten (H := ex_collaborators) 2 0 ex_config_bad_storage
  = ([ex_request],
     Ret (inr "error building repositories for transport config: empty dns")).
Proof.
  destruct (repositories_all_or_first_error (H := ex_collaborators)
              ex_config_bad_storage) as (_ & Hfirst & Hup).
  assert (Hrepos : repositories (H := ex_collaborators) ex_config_bad_storage
          = inr "error building repositories for transport config: empty dns").
  { apply (Hfirst ["mongodb://one"] "" ["postgresql://two"] "empty dns").
    - reflexivity.
    - constructor; [by exists "mongodb://one" | constructor].
    - reflexivity. }
  split; [exact Hrepos|].
  apply (Hup _ None 2%nat 0%nat); [reflexivity | reflexivity | exact Hrepos].
Defined.

(** X5. A fetch configuration is built exactly when the base URL and the
    endpoint can be joined and the result parsed. Its URL has the host and
    the path of the parsed URL; in its query a parameter of the request has
    the request's value as its only value, in place of any values of the
    base URL, and every other parameter keeps the values of the base URL.
    Method, client and limiter are those given. *)
Theorem newFetchConfig_merges_query `{Collaborators} (cfg : Config)
    (req : Request) (client : option Client) (rl : Limiter)
    (fc : FetchConfig) :
  newFetchConfig cfg req client rl = inl fc <->
  exists rawURL u,
    url_JoinPath (cfg_URL cfg) (Endpoint req) = inl rawURL /\
    url_Parse rawURL = inl u /\
    fc = {| fc_Client := client; fc_Method := Method req;
            fc_URL := fc_URL fc; fc_RateLimiter := rl |} /\
    Host (fc_URL fc) = Host u /\
    Path (fc_URL fc) = Path u /\
    forall key,
      URL_Query (fc_URL fc) !! key = merged_values (Query req) u key.
Proof.
  unfold newFetchConfig. split.
  - destruct (url_JoinPath _ _) as [rawURL|]; [|done].
    destruct (url_Parse rawURL) as [u|] eqn:Hparse; [|done].
    intros [= <-]. exists rawURL, u. simpl.
    split; [done|]. split; [done|]. split; [done|].
    split; [by destruct (Query req)|]. split; [by destruct (Query req)|].
    intros key. unfold merged_values.
    destruct (Query req) as [q|]; [|done].
    unfold URL_Query at 1. simpl. apply set_all_lookup.
  - intros (rawURL & u & -> & -> & Hfc & Hhost & Hpath & Hquery).
    rewrite Hfc. f_equal. f_equal.
    destruct (fc_URL fc) as [host path query]. simpl in *. subst.
    unfold URL_Query in Hquery. simpl in Hquery.
    destruct (Query req) as [q|]; simpl.
    + unfold with_RawQuery. f_equal. apply map_eq. intros key.
      rewrite Hquery. unfold merged_values, URL_Query.
      by rewrite set_all_lookup.
    + destruct u as [h p uq]. simpl in *. f_equal. apply map_eq.
      intros key. by rewrite Hquery.
Qed.

Lemma newFetchConfig_merges_query_witness :
  exists rawURL u,
    url_JoinPath (Collaborators := ex_collaborators)
      "https://api.exchange.coinbase.com" "/products/BTC-USD/candles"
    = inl rawURL /\
    url_Parse (Collaborators := ex_collaborators) rawURL = inl u /\
    ex_fetchConfig
    = {| fc_Client := None; fc_Method := "GET";
         fc_URL := fc_URL ex_fetchConfig; fc_RateLimiter := ex_limiter |} /\
    Host (fc_URL ex_fetchConfig) = Host u /\
    Path (fc_URL ex_fetchConfig) = Path u /\
    forall key,
      URL_Query (fc_URL ex_fetchConfig) !! key
      = merged_values (Some ex_query) u key.
Proof.
  apply (proj1 (newFetchConfig_merges_query (H := ex_collaborators)
                  (ex_config None [ex_request]) ex_request None ex_limiter
                  ex_fetchConfig)).
  reflexivity.
Defined.

(** ** The workers *)

(** X6. A fetch worker gets through its jobs exactly when every fetch
    succeeds, and then sends one response per job, in the order of the
    jobs, each with the payload fetched, the URL and the table of its job.
    Whatever the fetches answer, the worker itself does not panic. *)
Theorem webWorker_sends_every_response `{Collaborators}
    (jobs : list flattenedRequest) :
  (snd (webWorker jobs) = Ret tt <->
   Forall (fun job => snd (fetched job) = None) jobs) /\
  (snd (webWorker jobs) = Ret tt -> fst (webWorker jobs) = map response jobs) /\
  (forall msg, snd (webWorker jobs) <> Panic msg) /\
  snd (webWorker jobs) <> NoFuel.
Proof.
  induction jobs as [|job jobs (IHiff & IHsent & IHpanic & IHfuel)].
  - simpl. repeat apply conj; done.
  - assert (Hstep : webWorker (job :: jobs)
                    = match fetched job with
                      | (_, Some err) => ([], Fatal err)
                      | (_, None) =>
                          let '(sent, r) := webWorker jobs in
                          (response job :: sent, r)
                      end).
    { simpl. unfold response, fetched.
      destruct (web_Fetch _ _ _ _) as [payload [err|]]; reflexivity. }
    rewrite Hstep. clear Hstep.
    destruct (fetched job) as [payload [err|]] eqn:Hfetch; simpl.
    + repeat apply conj; try done. inversion 1; subst.
      by rewrite Hfetch in *.
    + destruct (webWorker jobs) as [sent r]. simpl in *.
      repeat apply conj; try done.
      * intros Hr. constructor; [by rewrite Hfetch | by apply IHiff].
      * intros Hall. apply IHiff. by inversion Hall.
      * intros Hr. f_equal. by apply IHsent.
Qed.

Lemma webWorker_sends_every_response_witness :
  fst (webWorker (H := ex_collaborators)
         [ex_fetch_job "/products"; ex_fetch_job "/currencies"])
  = map response [ex_fetch_job "/products"; ex_fetch_job "/currencies"].
Proof.
  apply (proj1 (proj2 (webWorker_sends_every_response
                         (H := ex_collaborators)
                         [ex_fetch_job "/products";
                          ex_fetch_job "/currencies"]))).
  reflexivity.
Defined.

(** X7. The resolver of the storage worker panics exactly for a candles
    job of the Coinbase host whose URL has no granularity parameter or
    whose path has fewer than two segments; for every other job it returns
    a table and a callback. It never ends the process by itself. *)
Theorem repositoryWorker_resolve_panics_iff `{Collaborators} (job : repoJob) :
  ((exists msg, repositoryWorker_resolve job = Panic msg) <->
   coinbase_candles job /\
   (Values_index (URL_Query (job_url job)) "granularity" = [] \/
    (length (path_segments job) < 2)%nat)) /\
  ((exists table cb, repositoryWorker_resolve job = Ret (table, cb)) \/
   repositoryWorker_resolve job = Panic "index out of range").
Proof.
  rewrite repositoryWorker_resolve_unfold. unfold coinbase_candles. simpl.
  destruct (String.eqb_spec (declared_table job) "candles") as [Heq|Hne].
  2:{ split; [|eauto]. split; [by intros [? ?] | by intros [[? _] _]]. }
  destruct (Contains (Host (job_url job)) "coinbase.com") eqn:Hhost.
  2:{ split; [|eauto]. split; [by intros [? ?] | by intros [[_ ?] _]]. }
  destruct (Values_index (URL_Query (job_url job)) "granularity")
    as [|g gs] eqn:Hgran; simpl.
  { split; [|by right]. split; [intros _; auto | eauto]. }
  unfold slice_index.
  destruct (path_segments job !! 1%nat) as [productID|] eqn:Hprod; simpl.
  - split; [|left; by eexists _, _]. split; [by intros [? ?]|].
    intros [_ [?|Hshort]]; [done|].
    apply lookup_lt_Some in Hprod. lia.
  - split; [|by right]. split; [|eauto]. intros _.
    split; [by split|]. right. apply lookup_ge_None in Hprod. lia.
Qed.

Lemma repositoryWorker_upsert_all `{Collaborators} (table : string)
    (job : repoJob) (repos : list Repo) :
  Forall (fun repo => UpsertJSON repo table (b job) = None) repos ->
  repositoryWorker_upsert repos table (Some encodeUnchanged) job
  = (map (fun repo => Upserted repo table (b job)) repos, Ret tt).
Proof.
  induction 1 as [|repo repos Hrepo _ IH]; simpl; [done|].
  by rewrite Hrepo, IH.
Qed.

(** X8. A job whose table is not ["candles"] is stored as it is: when
    every repository accepts it, the worker upserts the payload of the
    job, unchanged, into that table of every repository, in the order of
    the repositories, and then signals the completion of the job once. *)
Theorem repositoryWorker_job_stores_unchanged `{Collaborators}
    (repos : list Repo) (job : repoJob) :
  declared_table job <> "candles" ->
  Forall (fun repo => UpsertJSON repo (declared_table job) (b job) = None)
    repos ->
  repositoryWorker_job repos job
  = ((map (fun repo => Upserted repo (declared_table job) (b job)) repos
      ++ [Done])%list, Ret tt).
Proof.
  intros Hne Hall. unfold repositoryWorker_job.
  rewrite repositoryWorker_resolve_unfold. simpl.
  destruct (String.eqb_spec (declared_table job) "candles"); [done|].
  by rewrite repositoryWorker_upsert_all.
Qed.

Lemma repositoryWorker_job_stores_unchanged_witness :
  repositoryWorker_job (H := ex_collaborators)
    ["mongodb://one"; "postgresql://two"] ex_products_job
  = ([Upserted "mongodb://one" "products" [Byte.x5b; Byte.x5d];
      Upserted "postgresql://two" "products" [Byte.x5b; Byte.x5d];
      Done], Ret tt).
Proof.
  apply (repositoryWorker_job_stores_unchanged (H := ex_collaborators)
           ["mongodb://one"; "postgresql://two"] ex_products_job).
  - vm_compute. discriminate.
  - repeat constructor.
Defined.

(** X9. A job whose table is ["candles"] and whose URL host does not
    contain ["coinbase.com"] gets no encoding callback: with at least one
    repository the worker panics on the call of the nil callback before
    any upsert, and with no repository it signals the completion of the
    job. *)
Theorem repositoryWorker_job_candles_elsewhere `{Collaborators}
    (job : repoJob) :
  declared_table job = "candles" ->
  Contains (Host (job_url job)) "coinbase.com" = false ->
  repositoryWorker_resolve job = Ret ("candles", None) /\
  repositoryWorker_job [] job = ([Done], Ret tt) /\
  forall repo repos,
    repositoryWorker_job (repo :: repos) job
    = ([], Panic "invalid memory address or nil pointer dereference").
Proof.
  intros Heq Hhost.
  assert (Hres : repositoryWorker_resolve job = Ret ("candles", None)).
  { rewrite repositoryWorker_resolve_unfold. simpl. by rewrite Heq, Hhost. }
  unfold repositoryWorker_job. rewrite Hres. done.
Qed.

Lemma repositoryWorker_resolve_panics_iff_witness :
  (exists msg,
     repositoryWorker_resolve (H := ex_collaborators) ex_job_short_path
     = Panic msg) /\
  ~ (exists msg,
       repositoryWorker_resolve (H := ex_collaborators) ex_job = Panic msg).
Proof.
  split.
  - apply (proj1 (repositoryWorker_resolve_panics_iff
                    (H := ex_collaborators) ex_job_short_path)).
    split; [split; reflexivity|]. right. vm_compute. lia.
  - intros Hpanic.
    apply (proj1 (repositoryWorker_resolve_panics_iff
                    (H := ex_collaborators) ex_job)) in Hpanic.
    destruct Hpanic as [_ [Hgran|Hshort]].
    + vm_compute in Hgran. discriminate.
    + vm_compute in Hshort. lia.
Defined.

Lemma repositoryWorker_job_candles_elsewhere_witness :
  repositoryWorker_job (H := ex_collaborators) ["mongodb://one"]
    ex_job_other_host
  = ([], Panic "invalid memory address or nil pointer dereference").
Proof.
  apply (repositoryWorker_job_candles_elsewhere (H := ex_collaborators)
           ex_job_other_host); reflexivity.
Defined.

Lemma count_Done_app `{Collaborators} (evs evs' : list repoEvent) :
  count_Done (evs ++ evs') = (count_Done evs + count_Done evs')%nat.
Proof. unfold count_Done. by rewrite List.filter_app, length_app. Qed.

Lemma count_Upserted_app `{Collaborators} (evs evs' : list repoEvent) :
  count_Upserted (evs ++ evs')
  = (count_Upserted evs + count_Upserted evs')%nat.
Proof. unfold count_Upserted. by rewrite List.filter_app, length_app. Qed.

(** The upserts of one job: no completion signal among them, one upsert
    per repository when all went through and fewer otherwise. *)
Lemma repositoryWorker_upsert_events `{Collaborators} (table : string)
    (cb : option encodingCallback) (job : repoJob) (repos : list Repo) :
  forall evs r,
    repositoryWorker_upsert repos table cb job = (evs, r) ->
    count_Done evs = 0%nat /\
    (count_Upserted evs <= length repos)%nat /\
    (r = Ret tt -> count_Upserted evs = length repos).
Proof.
  unfold count_Done, count_Upserted.
  induction repos as [|repo repos IH]; intros evs r; simpl.
  - intros [= <- <-]. done.
  - destruct (call_encodingCallback cb job) as [[payload [err|]]| | |];
      try (intros [= <- <-]; simpl; split; [reflexivity|split; [lia|done]]).
    destruct (UpsertJSON repo table payload);
      try (intros [= <- <-]; simpl; split; [reflexivity|split; [lia|done]]).
    destruct (repositoryWorker_upsert repos table cb job) as [evs' r'].
    destruct (IH evs' r' eq_refl) as (Hdone & Hle & Hall).
    intros [= <- <-]. simpl.
    split; [exact Hdone|]. split; [lia|]. intros Hr. by rewrite Hall.
Qed.

Lemma repositoryWorker_job_events `{Collaborators} (repos : list Repo)
    (job : repoJob) :
  forall evs r,
    repositoryWorker_job repos job = (evs, r) ->
    (r = Ret tt ->
     count_Done evs = 1%nat /\ count_Upserted evs = length repos) /\
    (r <> Ret tt -> count_Done evs = 0%nat).
Proof.
  intros evs r. unfold repositoryWorker_job.
  destruct (repositoryWorker_resolve job) as [[table cb]| | |];
    try (intros [= <- <-]; done).
  destruct (repositoryWorker_upsert repos table cb job) as [evs' r'] eqn:Hup.
  destruct (repositoryWorker_upsert_events _ _ _ _ _ _ Hup)
    as (Hdone & _ & Hall).
  destruct r' as [[]| | |]; intros [= <- <-]; split; try done.
  intros _. rewrite count_Done_app, count_Upserted_app, Hdone, Hall by done.
  split; [done|]. unfold count_Upserted. simpl. lia.
Qed.

Lemma repositoryWorker_events `{Collaborators} (repos : list Repo) :
  forall jobs,
    (snd (repositoryWorker repos jobs) = Ret tt ->
     count_Done (fst (repositoryWorker repos jobs)) = length jobs /\
     count_Upserted (fst (repositoryWorker repos jobs))
     = (length jobs * length repos)%nat) /\
    (snd (repositoryWorker repos jobs) <> Ret tt ->
     (count_Done (fst (repositoryWorker repos jobs)) < length jobs)%nat).
Proof.
  induction jobs as [|job jobs [IHok IHstop]]; simpl; [done|].
  destruct (repositoryWorker_job repos job) as [evs r] eqn:Hjob.
  destruct (repositoryWorker_job_events _ _ _ _ Hjob) as [Hok Hstop].
  destruct r as [[]| | |]; simpl;
    try (split; [done|]; intros _; rewrite Hstop by done; lia).
  destruct (repositoryWorker repos jobs) as [evs' r']. simpl in *.
  destruct (Hok eq_refl) as [Hdone Hups].
  rewrite count_Done_app, count_Upserted_app, Hdone, Hups. split.
  - intros Hr. destruct (IHok Hr) as [-> ->]. split; lia.
  - intros Hr. specialize (IHstop Hr). lia.
Qed.

(** X10. A storage worker signals the completion of a job once, after
    the upserts of the job into all repositories: a worker that gets
    through its jobs has signalled as many completions as it received jobs
    and made one upsert per job and repository; a worker that stops on an
    error or a panic has signalled fewer completions than it received
    jobs. *)
Theorem repositoryWorker_signals_once_per_job `{Collaborators}
    (repos : list Repo) (jobs : list repoJob) :
  (snd (repositoryWorker repos jobs) = Ret tt ->
   count_Done (fst (repositoryWorker repos jobs)) = length jobs /\
   count_Upserted (fst (repositoryWorker repos jobs))
   = (length jobs * length repos)%nat) /\
  (snd (repositoryWorker repos jobs) <> Ret tt ->
   (count_Done (fst (repositoryWorker repos jobs)) < length jobs)%nat).
Proof. apply repositoryWorker_events. Qed.

Lemma repositoryWorker_signals_once_per_job_witness :
  count_Done (fst (repositoryWorker (H := ex_collaborators)
                     ["mongodb://one"; "postgresql://two"]
                     [ex_job; ex_products_job])) = 2%nat /\
  count_Upserted (fst (repositoryWorker (H := ex_collaborators)
                         ["mongodb://one"; "postgresql://two"]
                         [ex_job; ex_products_job])) = (2 * 2)%nat.
Proof.
  apply (proj1 (repositoryWorker_signals_once_per_job
                  (H := ex_collaborators)
                  ["mongodb://one"; "postgresql://two"]
                  [ex_job; ex_products_job])).
  reflexivity.
Defined.

Lemma webWorker_sent_length `{Collaborators} (jobs : list flattenedRequest) :
  snd (webWorker jobs) = Ret tt ->
  length (fst (webWorker jobs)) = length jobs.
Proof.
  induction jobs as [|job jobs IH]; simpl; [done|].
  destruct (web_Fetch _ _ _ _) as [payload [err|]]; [done|].
  destruct (webWorker jobs) as [sent r]. simpl in *.
  intros Hr. by rewrite IH.
Qed.

(** X11. The count [Upsert] waits for is met: when a fetch worker gets
    through all flattened requests and a storage worker through all the
    responses, the storage worker has signalled exactly as many completions
    as there are flattened requests, after one upsert per flattened
    request and repository. *)
Theorem workers_signal_every_flattened_request `{Collaborators}
    (repos : list Repo) (frs : list flattenedRequest) :
  snd (webWorker frs) = Ret tt ->
  snd (repositoryWorker repos (fst (webWorker frs))) = Ret tt ->
  count_Done (fst (repositoryWorker repos (fst (webWorker frs))))
  = length frs /\
  count_Upserted (fst (repositoryWorker repos (fst (webWorker frs))))
  = (length frs * length repos)%nat.
Proof.
  intros Hweb Hrepo.
  destruct (repositoryWorker_events repos (fst (webWorker frs)))
    as [Hok _].
  rewrite webWorker_sent_length in Hok by done. by apply Hok.
Qed.

Lemma workers_signal_every_flattened_request_witness :
  count_Done
    (fst (repositoryWorker (H := ex_collaborators)
            ["mongodb://one"; "postgresql://two"]
            (fst (webWorker [ex_fetch_job "/products";
                             ex_fetch_job "/currencies"])))) = 2%nat /\
  count_Upserted
    (fst (repositoryWorker (H := ex_collaborators)
            ["mongodb://one"; "postgresql://two"]
            (fst (webWorker [ex_fetch_job "/products";
                             ex_fetch_job "/currencies"])))) = (2 * 2)%nat.
Proof.
  apply (workers_signal_every_flattened_request (H := ex_collaborators)
           ["mongodb://one"; "postgresql://two"]
           [ex_fetch_job "/products"; ex_fetch_job "/currencies"]);
    reflexivity.
Defined.

(** ** Flattening: what the chunk requests carry *)

Lemma newFetchConfig_Method `{Collaborators} (cfg : Config) (req : Request)
    (client : option Client) (rl : Limiter) (fc : FetchConfig) :
  newFetchConfig cfg req client rl = inl fc -> fc_Method fc = Method req.
Proof.
  unfold newFetchConfig.
  destruct (url_JoinPath _ _); [|done].
  destruct (url_Parse _); [|done]. by intros [= <-].
Qed.

Lemma Upsert_chunks_bounds `{Collaborators} (cfg : Config)
    (client : option Client) (rl : Limiter) (ts : timeseries)
    (layout : string) :
  Layout ts = Some layout ->
  StartName ts <> EndName ts ->
  forall cs req req' frs,
    Upsert_chunks cfg client rl ts req cs = (req', Ret (inl frs)) ->
    Forall2 (chunk_request ts layout req) cs frs.
Proof.
  intros Hlayout Hnames.
  induction cs as [|c cs IH]; intros req req' frs; simpl.
  - intros [= _ <-]. constructor.
  - rewrite Hlayout. destruct (Query req) as [q|]; [|done].
    set (q' := <[EndName ts := _]> (<[StartName ts := _]> q)).
    destruct (newFetchConfig cfg (with_Query req (Some q')) client rl)
      as [fc|] eqn:Hfc; [|done].
    destruct (Upsert_chunks _ _ _ _ _ cs) as [r' [[frs'|]| | |]] eqn:Hrest;
      try done.
    intros [= _ <-]. constructor.
    + unfold chunk_request. simpl. repeat apply conj.
      * apply (newFetchConfig_URL_query _ _ _ _ _ q' _ _ Hfc eq_refl).
        unfold q'. by rewrite lookup_insert_ne, lookup_insert_eq.
      * apply (newFetchConfig_URL_query _ _ _ _ _ q' _ _ Hfc eq_refl).
        unfold q'. by rewrite lookup_insert_eq.
      * by rewrite (newFetchConfig_Method _ _ _ _ _ Hfc).
      * done.
    + eapply Forall2_impl; [by eapply IH|]. by intros c' fr' Hc'.
Qed.

Lemma Upsert_chunks_static `{Collaborators} (cfg : Config)
    (client : option Client) (rl : Limiter) (ts : timeseries)
    (key value : string) :
  key <> StartName ts ->
  key <> EndName ts ->
  forall cs req q req' frs,
    Query req = Some q ->
    q !! key = Some value ->
    Upsert_chunks cfg client rl ts req cs = (req', Ret (inl frs)) ->
    Forall (fun fr =>
              Values_index (URL_Query (fc_URL (fetchConfig fr))) key = [value])
      frs.
Proof.
  intros Hstart Hend.
  induction cs as [|c cs IH]; intros req q req' frs Hq Hkey; simpl.
  - intros [= _ <-]. constructor.
  - destruct (Layout ts) as [layout|]; [|done]. rewrite Hq.
    set (q' := <[EndName ts := _]> (<[StartName ts := _]> q)).
    assert (Hkey' : q' !! key = Some value)
      by (unfold q'; by rewrite !lookup_insert_ne).
    destruct (newFetchConfig cfg (with_Query req (Some q')) client rl)
      as [fc|] eqn:Hfc; [|done].
    destruct (Upsert_chunks _ _ _ _ _ cs) as [r' [[frs'|]| | |]] eqn:Hrest;
      try done.
    intros [= _ <-]. constructor.
    + simpl. by apply (newFetchConfig_URL_query _ _ _ _ _ q' _ _ Hfc eq_refl).
    + exact (IH (with_Query req (Some q')) q' r' frs' eq_refl Hkey' Hrest).
Qed.

(** X12. A request whose query map gives a start and an end that parse to
    [s] and [e], with a positive period and distinct parameter names, is
    flattened into one request per chunk of the range, in the order of the
    chunks: the URL of the [i]-th one carries the formatted bounds of the
    [i]-th chunk as the only values of the start and end parameters, every
    other parameter of the request with its value, and each flattened
    request has the method and the table of the request. *)
Theorem Upsert_request_flattens_chunks `{Collaborators} (cfg : Config)
    (client : option Client) (rl : Limiter) (req : Request)
    (fc : FetchConfig) (ts : timeseries) (q : gmap string string)
    (startValue endValue : string) (s e : Time) :
  newFetchConfig cfg req client rl = inl fc ->
  Timeseries req = Some ts ->
  Query req = Some q ->
  q !! StartName ts = Some startValue ->
  q !! EndName ts = Some endValue ->
  StartName ts <> EndName ts ->
  time_Parse (default_Layout ts) startValue = inl s ->
  time_Parse (default_Layout ts) endValue = inl e ->
  0 < Period ts ->
  int32_range (Period ts) ->
  let step := Period ts * Second in
  let n := chunk_count s e step in
  forall fuel, (n <= fuel)%nat ->
    exists req' frs,
      Upsert_request fuel cfg client rl req = (req', Ret (inl frs)) /\
      Forall2 (chunk_request ts (default_Layout ts) req)
        (map (chunk_at s e step) (seq 0 n)) frs /\
      forall key value,
        q !! key = Some value ->
        key <> StartName ts -> key <> EndName ts ->
        Forall (fun fr =>
                  Values_index (URL_Query (fc_URL (fetchConfig fr))) key
                  = [value]) frs.
Proof.
  intros Hfc Hts Hq Hsv Hev Hnames Hs He Hpos Hrange step n fuel Hfuel.
  pose proof (Duration_of_Period _ Hrange) as Hstep.
  assert (Heq : Duration_mul Second (Period ts) = step)
    by (rewrite Hstep; unfold step, Second; lia).
  pose proof (chunks_loop_closed_form (Period ts)) as Hloop. simpl in Hloop.
  rewrite Heq in Hloop.
  specialize (Hloop ltac:(unfold step, Second; lia) fuel s e Hfuel).
  unfold Upsert_request. rewrite Hfc, Hts. unfold chunks. simpl.
  rewrite (newFetchConfig_URL_query _ _ _ _ _ _ _ _ Hfc Hq Hsv), Hs.
  rewrite (newFetchConfig_URL_query _ _ _ _ _ _ _ _ Hfc Hq Hev), He.
  rewrite Hloop. simpl. fold n.
  set (ts' := with_Layout ts (Some (default_Layout ts))).
  set (cs := map (chunk_at s e step) (seq 0 n)).
  destruct (Upsert_chunks_length cfg client rl ts' (default_Layout ts) cs
              eq_refl (with_Timeseries req (Some ts')) q fc Hq Hfc)
    as (req' & frs & Hrun & _ & _).
  exists req', frs. split; [done|]. split.
  - apply (Upsert_chunks_bounds cfg client rl ts' (default_Layout ts)
             eq_refl Hnames) in Hrun.
    eapply Forall2_impl; [exact Hrun|]. by intros c fr Hc.
  - intros key value Hkey Hks Hke.
    exact (Upsert_chunks_static cfg client rl ts' key value Hks Hke
             cs (with_Timeseries req (Some ts')) q req' frs Hq Hkey Hrun).
Qed.

Lemma Upsert_request_flattens_chunks_witness :
  exists req' frs,
    Upsert_request (H := ex_collaborators) 2 (ex_config None [ex_request])
      None ex_limiter ex_request = (req', Ret (inl frs)) /\
    Forall2 (chunk_request ex_timeseries RFC3339 ex_request)
      (map (chunk_at 1672531200000000000 1672538400000000000
              (3600 * Second))
         (seq 0 (chunk_count 1672531200000000000 1672538400000000000
                   (3600 * Second)))) frs /\
    forall key value,
      ex_query !! key = Some value ->
      key <> "start" -> key <> "end" ->
      Forall (fun fr =>
                Values_index (URL_Query (fc_URL (fetchConfig fr))) key
                = [value]) frs.
Proof.
  apply (Upsert_request_flattens_chunks (H := ex_collaborators)
           (ex_config None [ex_request]) None ex_limiter ex_request
           ex_fetchConfig ex_timeseries ex_query
           "2023-01-01T00:00:00Z" "2023-01-01T02:00:00Z"
           1672531200000000000 1672538400000000000).
  - reflexivity.
  - reflexivity.
  - reflexivity.
  - vm_compute. reflexivity.
  - vm_compute. reflexivity.
  - discriminate.
  - vm_compute. reflexivity.
  - vm_compute. reflexivity.
  - simpl. lia.
  - unfold int32_range. simpl. lia.
  - vm_compute. lia.
Defined.

(** ** Flattening: what it leaves alone, and how it can fail *)

Lemma same_but_bounds_refl (ts : timeseries) (q : option (gmap string string)) :
  same_but_bounds ts q q.
Proof. by destruct q. Qed.

Lemma Upsert_chunks_frame `{Collaborators} (cfg : Config)
    (client : option Client) (rl : Limiter) (ts : timeseries) :
  forall cs req req' r,
    Upsert_chunks cfg client rl ts req cs = (req', r) ->
    with_Query req' (Query req) = req /\
    same_but_bounds ts (Query req) (Query req').
Proof.
  induction cs as [|c cs IH]; intros req req' r; simpl.
  - intros [= <- _]. split; [by destruct req | apply same_but_bounds_refl].
  - destruct (Layout ts) as [layout|].
    2:{ intros [= <- _].
        split; [by destruct req | apply same_but_bounds_refl]. }
    destruct (Query req) as [q|] eqn:Hq.
    2:{ intros [= <- _]. rewrite Hq.
        split; [destruct req; simpl in *; by subst | done]. }
    set (q' := <[EndName ts := _]> (<[StartName ts := _]> q)).
    assert (Hstep : with_Query (with_Query req (Some q')) (Some q) = req
                    /\ same_but_bounds ts (Some q) (Some q')).
    { split; [destruct req; simpl in *; by subst|].
      intros key Hs He. unfold q'. by rewrite !lookup_insert_ne. }
    destruct (newFetchConfig _ _ _ _) as [fc|].
    2:{ intros [= <- _]. exact Hstep. }
    destruct (Upsert_chunks _ _ _ _ _ cs) as [r' out] eqn:Hrest.
    destruct (IH _ _ _ Hrest) as [Hsame Hquery]. simpl in Hsame, Hquery.
    assert (Hgoal : with_Query r' (Some q) = req /\
                    same_but_bounds ts (Some q) (Query r')).
    { split.
      - destruct Hstep as [<- _]. rewrite <- Hsame. by destruct r'.
      - destruct (Query r') as [q''|]; [|done]. intros key Hs He.
        rewrite Hquery by done. unfold q'. by rewrite !lookup_insert_ne. }
    destruct out as [[frs|]| | |]; intros [= <- _]; exact Hgoal.
Qed.

(** X13. Whatever its outcome, the body of the request loop of [Upsert]
    changes nothing of a request without timeseries, and of a request with
    a timeseries at most two things: the layout of the timeseries, set to
    the layout used (RFC3339 when none was given), and the start and end
    parameters of its query map. Method, endpoint, table, burst cap, the
    names and the period of the timeseries, the other query parameters and
    the absence of a query map stay as they were. *)
Theorem Upsert_request_frame `{Collaborators} (fuel : nat) (cfg : Config)
    (client : option Client) (rl : Limiter) (req : Request) :
  let req' := fst (Upsert_request fuel cfg client rl req) in
  (Timeseries req = None -> req' = req) /\
  (forall ts,
     Timeseries req = Some ts ->
     with_Timeseries (with_Query req' (Query req)) (Some ts) = req /\
     (Timeseries req' = Some ts \/
      Timeseries req' = Some (with_Layout ts (Some (default_Layout ts)))) /\
     same_but_bounds ts (Query req) (Query req')).
Proof.
  unfold Upsert_request. simpl.
  destruct (newFetchConfig cfg req client rl) as [fc|]; simpl.
  2:{ split; [done|]. intros ts Hts.
      repeat split; [destruct req; simpl in *; by subst | by left
                    | apply same_but_bounds_refl]. }
  destruct (Timeseries req) as [ts|] eqn:Hts; [|done].
  split; [done|]. intros ? [= <-].
  set (ts' := with_Layout ts (Some (default_Layout ts))).
  assert (Hbase : with_Timeseries
                    (with_Query (with_Timeseries req (Some ts')) (Query req))
                    (Some ts) = req)
    by (destruct req; simpl in *; by subst).
  destruct (snd (chunks fuel ts (fc_URL fc))) as [[cs [err|]]| | |] eqn:Hcs;
    unfold chunks in Hcs |- *; simpl in Hcs |- *; rewrite Hcs; simpl;
    try (repeat split; [exact Hbase | by right
                       | apply same_but_bounds_refl]).
  destruct (Upsert_chunks cfg client rl ts' (with_Timeseries req (Some ts')) cs)
    as [req' r] eqn:Hrun.
  destruct (Upsert_chunks_frame _ _ _ _ _ _ _ _ Hrun) as [Hsame Hquery].
  simpl in *. split; [|split].
  - rewrite Hsame. destruct req; simpl in *; by subst.
  - right. pose proof (f_equal Timeseries Hsame) as Hlayout.
    simpl in Hlayout. exact Hlayout.
  - exact Hquery.
Qed.

Lemma Upsert_request_frame_witness :
  with_Timeseries
    (with_Query
       (fst (Upsert_request (H := ex_collaborators) 2
               (ex_config None [ex_request]) None ex_limiter ex_request))
       (Some ex_query))
    (Some ex_timeseries) = ex_request /\
  fst (Upsert_request (H := ex_collaborators) 2
         (ex_config None [ex_request_plain]) None ex_limiter ex_request_plain)
  = ex_request_plain.
Proof.
  split.
  - exact (proj1 (proj2 (Upsert_request_frame (H := ex_collaborators) 2
                           (ex_config None [ex_request]) None ex_limiter
                           ex_request)
                    ex_timeseries eq_refl)).
  - apply (proj1 (Upsert_request_frame (H := ex_collaborators) 2
                    (ex_config None [ex_request_plain]) None ex_limiter
                    ex_request_plain)).
    reflexivity.
Defined.

(** ** Flattening: the request loop *)

Lemma Upsert_requests_app `{Collaborators} (fuel : nat) (cfg : Config)
    (client : option Client) (rl : Limiter) (rest : list Request) :
  forall before before' frs,
    Upsert_requests fuel cfg client rl before = (before', Ret (inl frs)) ->
    Upsert_requests fuel cfg client rl (before ++ rest)
    = ((before' ++ fst (Upsert_requests fuel cfg client rl rest))%list,
       match snd (Upsert_requests fuel cfg client rl rest) with
       | Ret (inl frs') => Ret (inl (frs ++ frs')%list)
       | r => r
       end).
Proof.
  induction before as [|req before IH]; intros before' frs; simpl.
  - intros [= <- <-]. by destruct (Upsert_requests fuel cfg client rl rest)
      as [rest' [[?|?]| | |]].
  - destruct (Upsert_request fuel cfg client rl req)
      as [req' [[frs1|]| | |]]; try done.
    destruct (Upsert_requests fuel cfg client rl before)
      as [b' [[frs2|]| | |]] eqn:Hbefore; try done.
    intros [= <- <-]. rewrite (IH _ _ eq_refl).
    destruct (Upsert_requests fuel cfg client rl rest)
      as [rest' [[frs3|]| | |]]; simpl; try done.
    by rewrite app_assoc.
Qed.

(** X15. The request loop of [Upsert] flattens the requests in the order
    of the configuration and appends their flattened requests in that
    order. It stops at the first request that is not flattened (an error,
    a panic, a loop that does not end): the outcome is the outcome of that
    request, the requests before it are as their flattening left them, and
    the requests after it are not touched. *)
Theorem Upsert_requests_in_order_until_failure `{Collaborators}
    (fuel : nat) (cfg : Config) (client : option Client) (rl : Limiter) :
  (forall before after before' after' frs frs',
     Upsert_requests fuel cfg client rl before = (before', Ret (inl frs)) ->
     Upsert_requests fuel cfg client rl after = (after', Ret (inl frs')) ->
     Upsert_requests fuel cfg client rl (before ++ after)
     = ((before' ++ after')%list, Ret (inl (frs ++ frs')%list))) /\
  (forall before req after before' frs req' r,
     Upsert_requests fuel cfg client rl before = (before', Ret (inl frs)) ->
     Upsert_request fuel cfg client rl req = (req', r) ->
     flattened r = None ->
     Upsert_requests fuel cfg client rl (before ++ req :: after)
     = ((before' ++ req' :: after)%list, r)).
Proof.
  split.
  - intros before after before' after' frs frs' Hbefore Hafter.
    rewrite (Upsert_requests_app _ _ _ _ _ _ _ _ Hbefore). by rewrite Hafter.
  - intros before req after before' frs req' r Hbefore Hreq Hr.
    rewrite (Upsert_requests_app _ _ _ _ _ _ _ _ Hbefore). simpl.
    rewrite Hreq. by destruct r as [[?|?]| | |].
Qed.

Lemma Upsert_requests_in_order_until_failure_witness :
  Upsert_requests (H := ex_collaborators) 2
    (ex_config None [ex_request_plain; ex_request_no_start; ex_request])
    None ex_limiter
    ([ex_request_plain] ++ ex_request_no_start :: [ex_request])%list
  = (([ex_request_plain]
        ++ with_Timeseries ex_request_no_start
             (Some (with_Layout ex_timeseries (Some RFC3339)))
        :: [ex_request])%list,
     Ret (inr "error getting timeseries chunks: []")).
Proof.
  apply (proj2 (Upsert_requests_in_order_until_failure
                  (H := ex_collaborators) 2
                  (ex_config None
                     [ex_request_plain; ex_request_no_start; ex_request])
                  None ex_limiter)
           [ex_request_plain] ex_request_no_start [ex_request]
           [ex_request_plain]
           [{| fetchConfig := ex_fetchConfig; table := None |}]).
  - reflexivity.
  - reflexivity.
  - reflexivity.
Defined.

Lemma Upsert_chunks_table `{Collaborators} (cfg : Config)
    (client : option Client) (rl : Limiter) (ts : timeseries) :
  forall cs req req' frs,
    Upsert_chunks cfg client rl ts req cs = (req', Ret (inl frs)) ->
    Forall (fun fr => table fr = Table req) frs.
Proof.
  induction cs as [|c cs IH]; intros req req' frs; simpl.
  - intros [= _ <-]. constructor.
  - destruct (Layout ts); [|done]. destruct (Query req); [|done].
    destruct (newFetchConfig _ _ _ _); [|done].
    destruct (Upsert_chunks _ _ _ _ _ cs) as [r' [[frs'|]| | |]] eqn:Hrest;
      try done.
    intros [= _ <-]. constructor; [done|]. by apply IH in Hrest.
Qed.

(** X16. The explicit table of a request reaches the storage: every
    request it is flattened into carries the table, the fetch worker hands
    it on with the response, and the storage worker resolves the response
    to that table with the payload left unchanged, whatever the URL,
    provided the table is not ["candles"]. *)
Theorem explicit_table_reaches_storage `{Collaborators} (fuel : nat)
    (cfg : Config) (client : option Client) (rl : Limiter)
    (req req' : Request) (frs : list flattenedRequest) (t : string) :
  Upsert_request fuel cfg client rl req = (req', Ret (inl frs)) ->
  Table req = Some t ->
  t <> "candles" ->
  Forall (fun fr =>
            table fr = Some t /\
            job_table (response fr) = Some t /\
            repositoryWorker_resolve (response fr)
            = Ret (t, Some encodeUnchanged)) frs.
Proof.
  intros Hrun Htable Hne.
  assert (Htables : Forall (fun fr => table fr = Some t) frs).
  { rewrite <- Htable. unfold Upsert_request in Hrun.
    destruct (newFetchConfig cfg req client rl) as [fc|]; [|done].
    destruct (Timeseries req) as [ts|].
    - destruct (chunks fuel ts (fc_URL fc)) as [ts' [[cs [e|]]| | |]];
        try done.
      by apply Upsert_chunks_table in Hrun.
    - injection Hrun as _ <-. by repeat constructor. }
  eapply Forall_impl; [exact Htables|]. intros fr Hfr. simpl in Hfr.
  repeat split; try done.
  rewrite repositoryWorker_resolve_unfold. unfold declared_table. simpl.
  rewrite Hfr. by destruct (String.eqb_spec t "candles").
Qed.

Lemma explicit_table_reaches_storage_witness :
  Forall (fun fr =>
            table fr = Some "btc_usd" /\
            job_table (response fr) = Some "btc_usd" /\
            repositoryWorker_resolve (response fr)
            = Ret ("btc_usd", Some encodeUnchanged))
    [ex_chunk_request (Some "btc_usd")
       "2023-01-01T00:00:00Z" "2023-01-01T01:00:00Z";
     ex_chunk_request (Some "btc_usd")
       "2023-01-01T01:00:00Z" "2023-01-01T02:00:00Z"].
Proof.
  apply (explicit_table_reaches_storage (H := ex_collaborators) 2
           (ex_config None [ex_request_table]) None ex_limiter
           ex_request_table
           (with_Timeseries
              (with_Query ex_request_table
                 (Some (<["start" := "2023-01-01T01:00:00Z"]> ex_query)))
              (Some (with_Layout ex_timeseries (Some RFC3339))))
           _ "btc_usd").
  - reflexivity.
  - reflexivity.
  - discriminate.
Defined.

(** ** The later [Request] methods *)

Section RequestGoProperties.

Variable C : Type.
Variable time_Format : string -> Time -> string.
Variable path_Join : string -> string -> string.
Variable chunk :
  RequestGo.timeseries -> URL -> RequestGo.timeseries * result (option error).

(** X17. The later [newFetchConfig] needs the rate limit of the request:
    with a burst and a period it allocates one new limiter and returns a
    configuration whose URL has the host of the given URL, the joined
    path, and a query in which the parameters of the request replace
    those of the given URL; without them it panics on the nil pointer
    before any limiter is allocated. *)
Theorem RequestGo_newFetchConfig_outcome (next : nat)
    (req : RequestGo.Request) (rurl : URL) (client : option C) :
  (complete_rate_limit (RequestGo.RateLimitConfig req) ->
   exists fc,
     RequestGo.newFetchConfig C path_Join next req rurl client
     = (S next, Ret fc) /\
     lim_id (RequestGo.RateLimiter C fc) = next /\
     RequestGo.fc_Method C fc = RequestGo.Method req /\
     RequestGo.C C fc = client /\
     Host (RequestGo.fc_URL C fc) = Host rurl /\
     Path (RequestGo.fc_URL C fc)
     = path_Join (Path rurl) (RequestGo.Endpoint req) /\
     forall key,
       URL_Query (RequestGo.fc_URL C fc) !! key
       = merged_values (RequestGo.Query req) rurl key) /\
  (~ complete_rate_limit (RequestGo.RateLimitConfig req) ->
   RequestGo.newFetchConfig C path_Join next req rurl client
   = (next, Panic "invalid memory address or nil pointer dereference")).
Proof.
  unfold RequestGo.newFetchConfig, complete_rate_limit. split.
  - intros (burst & period & ->). eexists. split; [reflexivity|]. simpl.
    repeat apply conj; try done; try by destruct (RequestGo.Query req).
    intros key. unfold merged_values.
    destruct (RequestGo.Query req) as [q|]; [|done].
    unfold URL_Query at 1. simpl. apply set_all_lookup.
  - intros Hnot.
    destruct (RequestGo.RateLimitConfig req) as [[[burst|] [period|]]|];
      try done.
    exfalso. eauto.
Qed.

Lemma flattenTimeseries_loop_runs (ts : RequestGo.timeseries)
    (layout : string) (rurl : URL) (client : option C) :
  RequestGo.Layout ts = Some layout ->
  forall cs next req q,
    RequestGo.Query req = Some q ->
    complete_rate_limit (RequestGo.RateLimitConfig req) ->
    exists req' frs,
      RequestGo.flattenTimeseries_loop C time_Format path_Join
        next ts req rurl client cs
      = ((next + length cs)%nat, req', Ret frs) /\
      length frs = length cs /\
      Forall (fun fr => RequestGo.table C fr = RequestGo.Table req) frs.
Proof.
  intros Hlayout. induction cs as [|c cs IH]; intros next req q Hq Hrl; simpl.
  - exists req, []. rewrite Nat.add_0_r. by repeat split.
  - rewrite Hlayout, Hq.
    set (q' := <[RequestGo.EndName ts := _]> (<[RequestGo.StartName ts := _]> q)).
    destruct Hrl as (burst & period & Hrl).
    unfold RequestGo.newFetchConfig. simpl. rewrite Hrl.
    destruct (IH (S next) (RequestGo.with_Query req (Some q')) q' eq_refl)
      as (req' & frs & Hrun & Hlen & Htables).
    { exists burst, period. exact Hrl. }
    rewrite Hrun.
    eexists _, _. split; [f_equal; f_equal; lia|]. simpl.
    split; [by rewrite Hlen|]. by constructor.
Qed.

(** X18. [flattenTimeseries] on a request with a timeseries, a query map
    and a rate limit: when [chunk], called on the URL with the parameters
    of the request applied, reports no error, there is one flattened
    request per chunk of the timeseries, each with the table of the
    request and each with a limiter of its own, newly allocated (as many
    limiters as chunks, no two the same); when [chunk] reports an error,
    the error is returned under the prefix of the function, with no
    flattened request and no limiter allocated. *)
Theorem flattenTimeseries_one_limiter_per_chunk (next : nat)
    (req : RequestGo.Request) (rurl : URL) (client : option C)
    (ts ts' : RequestGo.timeseries) (q : gmap string string)
    (outcome : option error) :
  RequestGo.Timeseries req = Some ts ->
  RequestGo.Query req = Some q ->
  complete_rate_limit (RequestGo.RateLimitConfig req) ->
  chunk ts (with_RawQuery rurl (set_all q (URL_Query rurl)))
  = (ts', Ret outcome) ->
  match outcome with
  | Some err =>
      RequestGo.flattenTimeseries C time_Format path_Join chunk
        next req rurl client
      = (next, RequestGo.with_Timeseries req (Some ts'),
         Ret ([], Some ("failed to set time series chunks: " +:+ err)))
  | None =>
      is_Some (RequestGo.Layout ts') ->
      exists req' frs,
        RequestGo.flattenTimeseries C time_Format path_Join chunk
          next req rurl client
        = ((next + length (RequestGo.chunks ts'))%nat, req', Ret (frs, None)) /\
        length frs = length (RequestGo.chunks ts') /\
        limiter_ids frs = seq next (length (RequestGo.chunks ts')) /\
        NoDup (limiter_ids frs) /\
        Forall (fun fr => RequestGo.table C fr = RequestGo.Table req) frs
  end.
Proof.
  intros Hts Hq Hrl Hchunk. unfold RequestGo.flattenTimeseries.
  rewrite Hts, Hq, Hchunk. destruct outcome as [err|]; [done|].
  intros [layout Hlayout].
  destruct (flattenTimeseries_loop_runs ts' layout
              (with_RawQuery rurl (set_all q (URL_Query rurl))) client
              Hlayout (RequestGo.chunks ts') next
              (RequestGo.with_Timeseries req (Some ts')) q Hq Hrl)
    as (req' & frs & Hrun & Hlen & Htables).
  rewrite Hrun. simpl. exists req', frs.
  pose proof (flattenTimeseries_loop_limiters C time_Format path_Join _ _ _
                _ _ _ _ _ _ Hrun) as Hids.
  repeat apply conj; try done.
  rewrite Hids. apply NoDup_seq.
Qed.

Lemma flattenTimeseries_loop_last_bounds (ts : RequestGo.timeseries)
    (layout : string) (rurl : URL) (client : option C) (c : timeRange) :
  RequestGo.Layout ts = Some layout ->
  forall cs next req next' req' frs,
    RequestGo.flattenTimeseries_loop C time_Format path_Join
      next ts req rurl client (cs ++ [c]) = (next', req', Ret frs) ->
    exists q', RequestGo.Query req' = Some q' /\
               q' !! RequestGo.EndName ts = Some (time_Format layout (snd c)).
Proof.
  intros Hlayout. induction cs as [|c0 cs IH];
    intros next req next' req' frs; simpl; rewrite Hlayout;
    (destruct (RequestGo.Query req) as [q|]; [|done]);
    unfold RequestGo.newFetchConfig; simpl;
    (destruct (RequestGo.RateLimitConfig req) as [[[burst|] [period|]]|];
       try done).
  - intros [= _ <- _]. simpl. eexists. split; [reflexivity|].
    by rewrite lookup_insert_eq.
  - destruct (RequestGo.flattenTimeseries_loop _ _ _ (S next) _ _ _ _
                (cs ++ [c])) as [[n r] [frs'| | |]] eqn:Hrest; try done.
    intros [= _ <- _]. by eapply IH.
Qed.

Lemma flattenTimeseries_loop_keeps_timeseries (ts : RequestGo.timeseries)
    (client : option C) :
  forall cs next req rurl next' req' out,
    RequestGo.flattenTimeseries_loop C time_Format path_Join
      next ts req rurl client cs = (next', req', out) ->
    RequestGo.Timeseries req' = RequestGo.Timeseries req.
Proof.
  induction cs as [|c cs IH]; intros next req rurl next' req' out; simpl.
  - by intros [= _ <- _].
  - destruct (RequestGo.Layout ts); [|by intros [= _ <- _]].
    destruct (RequestGo.Query req); [|by intros [= _ <- _]].
    unfold RequestGo.newFetchConfig. simpl.
    destruct (RequestGo.RateLimitConfig req) as [[[?|] [?|]]|];
      try by intros [= _ <- _].
    destruct (RequestGo.flattenTimeseries_loop _ _ _ (S next) _ _ _ _ cs)
      as [[n2 r2] out2] eqn:Hrest.
    apply IH in Hrest. simpl in Hrest.
    destruct out2; intros [= _ <- _]; exact Hrest.
Qed.

(** X19. [flattenTimeseries] writes through the request it is given:
    when it has flattened a timeseries of at least one chunk, the query
    map of the request itself holds the formatted end of the last
    chunk. *)
Theorem flattenTimeseries_writes_request_query (next next' : nat)
    (req req' : RequestGo.Request) (rurl : URL) (client : option C)
    (ts ts' : RequestGo.timeseries)
    (frs : list (RequestGo.flattenedRequest C))
    (cs : list timeRange) (c : timeRange) (layout : string) :
  RequestGo.Timeseries req = Some ts ->
  RequestGo.flattenTimeseries C time_Format path_Join chunk
    next req rurl client = (next', req', Ret (frs, None)) ->
  RequestGo.Timeseries req' = Some ts' ->
  RequestGo.chunks ts' = (cs ++ [c])%list ->
  RequestGo.Layout ts' = Some layout ->
  exists q',
    RequestGo.Query req' = Some q' /\
    q' !! RequestGo.EndName ts' = Some (time_Format layout (snd c)).
Proof.
  intros Hts. unfold RequestGo.flattenTimeseries. rewrite Hts.
  destruct (chunk ts _) as [ts1 [[e|]| | |]] eqn:Hchunk; try done.
  destruct (RequestGo.flattenTimeseries_loop _ _ _ _ _ _ _ _ _)
    as [[n r] [frs'| | |]] eqn:Hrun; try done.
  intros [= <- <- <-] Hts' Hcs Hlayout.
  rewrite (flattenTimeseries_loop_keeps_timeseries _ _ _ _ _ _ _ _ _ Hrun)
    in Hts'.
  simpl in Hts'. injection Hts' as <-. rewrite Hcs in Hrun.
  by eapply flattenTimeseries_loop_last_bounds.
Qed.

End RequestGoProperties.

Lemma RequestGo_newFetchConfig_outcome_witness :
  exists fc,
    RequestGo.newFetchConfig APIKey ex_path_Join 0 ex_request_go
      ex_base_url None = (1%nat, Ret fc) /\
    lim_id (RequestGo.RateLimiter APIKey fc) = 0%nat /\
    RequestGo.fc_Method APIKey fc = "GET" /\
    RequestGo.C APIKey fc = None /\
    Host (RequestGo.fc_URL APIKey fc) = "api.exchange.coinbase.com" /\
    Path (RequestGo.fc_URL APIKey fc)
    = ex_path_Join "" "/products/BTC-USD/candles" /\
    forall key,
      URL_Query (RequestGo.fc_URL APIKey fc) !! key
      = merged_values (Some ex_query) ex_base_url key.
Proof.
  exact (proj1 (RequestGo_newFetchConfig_outcome APIKey ex_path_Join 0
                  ex_request_go ex_base_url None)
           (ex_intro _ 10 (ex_intro _ 1000000000 eq_refl))).
Defined.

Lemma flattenTimeseries_one_limiter_per_chunk_witness :
  exists req' frs,
    ex_flattenTimeseries 2 0 ex_request_go
    = ((0 + 2)%nat, req', Ret (frs, None)) /\
    length frs = 2%nat /\
    limiter_ids frs = seq 0 2 /\
    NoDup (limiter_ids frs) /\
    Forall (fun fr => RequestGo.table APIKey fr = "candles") frs.
Proof.
  refine (flattenTimeseries_one_limiter_per_chunk APIKey ex_time_Format
            ex_path_Join (ex_chunk 2) 0 ex_request_go ex_base_url None
            _ ex_timeseries_go_chunked ex_query None
            eq_refl eq_refl
            (ex_intro _ 10 (ex_intro _ 1000000000 eq_refl)) _ _).
  - reflexivity.
  - by exists RFC3339.
Defined.

Lemma flattenTimeseries_writes_request_query_witness :
  exists q',
    RequestGo.Query ex_request_go_after = Some q' /\
    q' !! "end" = Some (ex_time_Format RFC3339 1672538400000000000).
Proof.
  refine (flattenTimeseries_writes_request_query APIKey ex_time_Format
            ex_path_Join (ex_chunk 2) 0 2 ex_request_go ex_request_go_after
            ex_base_url None _ ex_timeseries_go_chunked
            [ex_chunk_request_go "2023-01-01T00:00:00Z"
               "2023-01-01T01:00:00Z" 0;
             ex_chunk_request_go "2023-01-01T01:00:00Z"
               "2023-01-01T02:00:00Z" 1]
            [(1672531200000000000, 1672534800000000000)]
            (1672534800000000000, 1672538400000000000) RFC3339
            eq_refl _ eq_refl eq_refl eq_refl).
  reflexivity.
Defined.

(** ** Candles of the Coinbase host, and what every flattened request of
    a run shares *)

Lemma repositoryWorker_upsert_candles `{Collaborators} (table : string)
    (productID : string) (job : repoJob) (payload : bytes)
    (repos : list Repo) :
  candles_encode productID (b job) = (payload, None) ->
  Forall (fun repo => UpsertJSON repo table payload = None) repos ->
  repositoryWorker_upsert repos table (Some (encodeCandles productID)) job
  = (map (fun repo => Upserted repo table payload) repos, Ret tt).
Proof.
  intros Hencode. induction 1 as [|repo repos Hrepo _ IH]; simpl; [done|].
  by rewrite Hencode, Hrepo, IH.
Qed.

(** X20. A candles job of the Coinbase host whose URL has a granularity
    and a second path segment is stored re-encoded: the payload is passed
    to the candles callback together with the second path segment as the
    product identifier, and when the callback and every repository
    succeed, what the callback returned for the payload of the job is
    upserted into every repository, under ["candle_minutes"] for the
    granularity ["60"] and under ["candles"] otherwise, before the one
    completion signal. *)
Theorem repositoryWorker_job_candles `{Collaborators} (repos : list Repo)
    (job : repoJob) (granularity productID : string) (more : list string)
    (payload : bytes) :
  coinbase_candles job ->
  Values_index (URL_Query (job_url job)) "granularity" = granularity :: more ->
  path_segments job !! 1%nat = Some productID ->
  candles_encode productID (b job) = (payload, None) ->
  let table :=
    if String.eqb granularity "60" then "candle_minutes" else "candles" in
  Forall (fun repo => UpsertJSON repo table payload = None) repos ->
  repositoryWorker_job repos job
  = ((map (fun repo => Upserted repo table payload) repos ++ [Done])%list,
     Ret tt).
Proof.
  intros [Heq Hhost] Hgran Hprod Hencode table Hall.
  unfold repositoryWorker_job. rewrite repositoryWorker_resolve_unfold.
  simpl. rewrite Heq, Hhost, Hgran. simpl.
  unfold slice_index. rewrite Hprod. simpl. fold table.
  by rewrite (repositoryWorker_upsert_candles _ _ _ _ _ Hencode Hall).
Qed.

Lemma repositoryWorker_job_candles_witness :
  repositoryWorker_job (H := ex_collaborators)
    ["mongodb://one"; "postgresql://two"] ex_job
  = ([Upserted "mongodb://one" "candle_minutes" [Byte.x5b; Byte.x5d];
      Upserted "postgresql://two" "candle_minutes" [Byte.x5b; Byte.x5d];
      Done], Ret tt).
Proof.
  apply (repositoryWorker_job_candles (H := ex_collaborators)
           ["mongodb://one"; "postgresql://two"] ex_job "60" "BTC-USD" []
           [Byte.x5b; Byte.x5d]).
  - split; reflexivity.
  - reflexivity.
  - reflexivity.
  - reflexivity.
  - repeat constructor.
Defined.

Lemma newFetchConfig_Client `{Collaborators} (cfg : Config) (req : Request)
    (client : option Client) (rl : Limiter) (fc : FetchConfig) :
  newFetchConfig cfg req client rl = inl fc -> fc_Client fc = client.
Proof.
  unfold newFetchConfig.
  destruct (url_JoinPath _ _); [|done].
  destruct (url_Parse _); [|done]. by intros [= <-].
Qed.

Lemma Upsert_chunks_client `{Collaborators} (cfg : Config)
    (client : option Client) (rl : Limiter) (ts : timeseries) :
  forall cs req req' frs,
    Upsert_chunks cfg client rl ts req cs = (req', Ret (inl frs)) ->
    Forall (fun fr => fc_Client (fetchConfig fr) = client) frs.
Proof.
  induction cs as [|c cs IH]; intros req req' frs; simpl.
  - intros [= _ <-]. constructor.
  - destruct (Layout ts); [|done]. destruct (Query req); [|done].
    destruct (newFetchConfig _ _ _ _) as [fc|] eqn:Hfc; [|done].
    destruct (Upsert_chunks _ _ _ _ _ cs) as [r' [[frs'|]| | |]] eqn:Hrest;
      try done.
    intros [= _ <-]. constructor; [|by eapply IH].
    simpl. by eapply newFetchConfig_Client.
Qed.

Lemma Upsert_requests_client `{Collaborators} (fuel : nat) (cfg : Config)
    (client : option Client) (rl : Limiter) :
  forall reqs reqs' frs,
    Upsert_requests fuel cfg client rl reqs = (reqs', Ret (inl frs)) ->
    Forall (fun fr => fc_Client (fetchConfig fr) = client) frs.
Proof.
  induction reqs as [|req rest IH]; intros reqs' frs; simpl.
  - intros [= _ <-]. constructor.
  - destruct (Upsert_request fuel cfg client rl req)
      as [req' [[frs1|]| | |]] eqn:Hreq; try done.
    destruct (Upsert_requests fuel cfg client rl rest)
      as [rest' [[frs2|]| | |]] eqn:Hrest; try done.
    intros [= _ <-]. apply Forall_app. split; [|by eapply IH].
    unfold Upsert_request in Hreq.
    destruct (newFetchConfig cfg req client rl) as [fc|] eqn:Hfc; [|done].
    destruct (Timeseries req) as [ts|].
    + destruct (chunks fuel ts (fc_URL fc)) as [ts' [[cs [e|]]| | |]];
        try done.
      by eapply Upsert_chunks_client.
    + injection Hreq as _ <-. constructor; [|constructor]. simpl.
      by eapply newFetchConfig_Client.
Qed.

(** X21. When [Upsert] reaches the start of its workers, every flattened
    request of the run holds the client that [connect] returned and one
    and the same limiter, made once from the rate limit of the
    configuration: its interval is the period times one second, its burst
    the configured burst. *)
Theorem Upsert_flatten_shares_client_and_limiter `{Collaborators}
    (fuel next : nat) (cfg : Config) (reqs : list Request)
    (frs : list flattenedRequest) :
  Upsert_flatten fuel next cfg = (reqs, Ret (inl frs)) ->
  exists client burst period,
    connect cfg = (client, None) /\
    cfg_RateLimitConfig cfg
    = Some {| Burst := Some burst; rl_Period := Some period |} /\
    Forall (fun fr =>
              fc_Client (fetchConfig fr) = client /\
              fc_RateLimiter (fetchConfig fr)
              = NewLimiter next (Duration_mul period Second) burst) frs.
Proof.
  unfold Upsert_flatten.
  destruct (Config_validate cfg); [done|].
  destruct (connect cfg) as [client [err|]]; [done|].
  destruct (repositories cfg); [|done].
  destruct (cfg_RateLimitConfig cfg) as [[[burst|] [period|]]|]; try done.
  intros Hrun. exists client, burst, period. repeat split.
  apply Forall_and. split.
  - by eapply Upsert_requests_client.
  - by eapply Upsert_requests_limiter.
Qed.

Lemma Upsert_flatten_shares_client_and_limiter_witness :
  exists client burst period,
    connect (H := ex_collaborators) (ex_config (Some ex_key) [ex_request_table])
    = (client, None) /\
    cfg_RateLimitConfig (ex_config (Some ex_key) [ex_request_table])
    = Some {| Burst := Some burst; rl_Period := Some period |} /\
    Forall (fun fr =>
              fc_Client (fetchConfig fr) = client /\
              fc_RateLimiter (fetchConfig fr)
              = NewLimiter 0 (Duration_mul period Second) burst)
      [mkFlattenedRequest
         (mkFetchConfig (Some ex_key) "GET"
            (fc_URL (fetchConfig
                       (ex_chunk_request (Some "btc_usd")
                          "2023-01-01T00:00:00Z" "2023-01-01T01:00:00Z")))
            ex_limiter) (Some "btc_usd");
       mkFlattenedRequest
         (mkFetchConfig (Some ex_key) "GET"
            (fc_URL (fetchConfig
                       (ex_chunk_request (Some "btc_usd")
                          "2023-01-01T01:00:00Z" "2023-01-01T02:00:00Z")))
            ex_limiter) (Some "btc_usd")].
Proof.
  apply (Upsert_flatten_shares_client_and_limiter (H := ex_collaborators)
           2 0 (ex_config (Some ex_key) [ex_request_table])
           [with_Timeseries
              (with_Query ex_request_table
                 (Some (<["start" := "2023-01-01T01:00:00Z"]> ex_query)))
              (Some (with_Layout ex_timeseries (Some RFC3339)))]).
  reflexivity.
Defined.

(** X22. [Upsert] reports every failure of the chunker with the same
    message: whichever bound of a timeseries request is absent, repeated
    or not a time, the request loop stops with the error ["error getting
    timeseries chunks: []"], which names neither the bound nor the cause;
    the request is flattened into nothing and its timeseries has the
    layout written into it. *)
Theorem Upsert_request_chunk_error `{Collaborators} (fuel : nat)
    (cfg : Config) (client : option Client) (rl : Limiter) (req : Request)
    (fc : FetchConfig) (ts : timeseries) :
  newFetchConfig cfg req client rl = inl fc ->
  Timeseries req = Some ts ->
  bad_bound (default_Layout ts) (URL_Query (fc_URL fc)) (StartName ts) \/
  bad_bound (default_Layout ts) (URL_Query (fc_URL fc)) (EndName ts) ->
  Upsert_request fuel cfg client rl req
  = (with_Timeseries req (Some (with_Layout ts (Some (default_Layout ts)))),
     Ret (inr "error getting timeseries chunks: []")).
Proof.
  intros Hfc Hts Hbad. unfold Upsert_request. rewrite Hfc, Hts.
  unfold chunks, bad_bound in *. simpl.
  destruct (Values_index (URL_Query (fc_URL fc)) (StartName ts))
    as [|sv [|sv' ss]]; try done.
  destruct (time_Parse (default_Layout ts) sv) as [s|] eqn:Hs; [|done].
  destruct (Values_index (URL_Query (fc_URL fc)) (EndName ts))
    as [|ev [|ev' es]]; try done.
  destruct (time_Parse (default_Layout ts) ev) as [e|] eqn:He; [|done].
  exfalso.
  destruct Hbad as [[Hl|(v & err & Hv & Hp)]|[Hl|(v & err & Hv & Hp)]];
    try done; injection Hv as <-; congruence.
Qed.

Lemma Upsert_request_chunk_error_witness :
  Upsert_request (H := ex_collaborators) 2
    (ex_config None [ex_request_no_start]) None ex_limiter ex_request_no_start
  = (with_Timeseries ex_request_no_start
       (Some (with_Layout ex_timeseries (Some RFC3339))),
     Ret (inr "error getting timeseries chunks: []")).
Proof.
  apply (Upsert_request_chunk_error (H := ex_collaborators) 2
           (ex_config None [ex_request_no_start]) None ex_limiter
           ex_request_no_start
           {| fc_Client := None; fc_Method := "GET";
              fc_URL := {| Host := "api.exchange.coinbase.com";
                           Path := "/products/BTC-USD/candles";
                           RawQuery :=
                             set_all (delete "start" ex_query) ∅ |};
              fc_RateLimiter := ex_limiter |}
           ex_timeseries).
  - reflexivity.
  - reflexivity.
  - left. left. vm_compute. discriminate.
Defined.

(** ** Timeseries requests without query map *)

(** C7: the code at a request of two full periods. The base URL carries
    the bounds, the request has no query map: the URL of the request has
    the two bounds, the chunker cuts the range into its two chunks of one
    period, and the write of the first chunk's start into the nil map of
    the request panics, in the request loop of [Upsert] and in
    [flattenTimeseries] alike; no request is flattened, where the range
    calls for two. *)
Theorem flattening_panics_on_nil_query_map :
  (exists fc,
     newFetchConfig (H := ex_collaborators_bounds) ex_config_bounds
       ex_request_nil_query None ex_limiter = inl fc /\
     snd (chunks (H := ex_collaborators_bounds) 2 ex_timeseries (fc_URL fc))
     = Ret ([(1672531200000000000, 1672534800000000000);
             (1672534800000000000, 1672538400000000000)], None)) /\
  snd (Upsert_request (H := ex_collaborators_bounds) 2 ex_config_bounds
         None ex_limiter ex_request_nil_query)
  = Panic "assignment to entry in nil map" /\
  snd (Upsert_flatten (H := ex_collaborators_bounds) 2 0 ex_config_bounds)
  = Panic "assignment to entry in nil map" /\
  RequestGo.flattenTimeseries APIKey ex_time_Format ex_path_Join
    (ex_chunk 2) 0 ex_request_go_nil_query ex_base_url_bounds None
  = (0%nat,
     RequestGo.with_Timeseries ex_request_go_nil_query
       (Some ex_timeseries_go_chunked),
     Panic "assignment to entry in nil map").
Proof.
  split; [|split; [|split]].
  - eexists. split; reflexivity.
  - reflexivity.
  - reflexivity.
  - reflexivity.
Qed.

(** X14. In the request loop of [Upsert], a request with a timeseries and
    without query map, whose bounds (they come with the base URL) parse to
    [s] before [e], with a positive period, panics at the first chunk on
    the write into its nil map: nothing is flattened for it, and the
    request is left with the layout written into its timeseries. *)
Theorem Upsert_request_nil_query_panics `{Collaborators} (cfg : Config)
    (client : option Client) (rl : Limiter) (req : Request)
    (fc : FetchConfig) (ts : timeseries) (startValue endValue : string)
    (s e : Time) :
  newFetchConfig cfg req client rl = inl fc ->
  Timeseries req = Some ts ->
  Query req = None ->
  Values_index (URL_Query (fc_URL fc)) (StartName ts) = [startValue] ->
  Values_index (URL_Query (fc_URL fc)) (EndName ts) = [endValue] ->
  time_Parse (default_Layout ts) startValue = inl s ->
  time_Parse (default_Layout ts) endValue = inl e ->
  s < e ->
  0 < Period ts ->
  int32_range (Period ts) ->
  forall fuel, (chunk_count s e (Period ts * Second)%Z <= fuel)%nat ->
    Upsert_request fuel cfg client rl req
    = (with_Timeseries req (Some (with_Layout ts (Some (default_Layout ts)))),
       Panic "assignment to entry in nil map").
Proof.
  intros Hfc Hts Hq Hstart Hend Hs He Hlt Hpos Hrange fuel Hfuel.
  pose proof (Duration_of_Period _ Hrange) as Hstep.
  set (step := Period ts * Second) in *.
  assert (Heq : Duration_mul Second (Period ts) = step)
    by (rewrite Hstep; unfold step, Second; lia).
  assert (Hstep_pos : 0 < step) by (unfold step, Second; lia).
  pose proof (chunks_loop_closed_form (Period ts)) as Hloop. simpl in Hloop.
  rewrite Heq in Hloop. specialize (Hloop Hstep_pos fuel s e Hfuel).
  rewrite chunk_count_step in Hloop by done. simpl in Hloop.
  unfold Upsert_request. rewrite Hfc, Hts. unfold chunks. simpl.
  rewrite Hstart, Hs, Hend, He, Hloop. simpl. by rewrite Hq.
Qed.

Lemma Upsert_request_nil_query_panics_witness :
  Upsert_request (H := ex_collaborators_bounds) 2 ex_config_bounds None
    ex_limiter ex_request_nil_query
  = (with_Timeseries ex_request_nil_query
       (Some (with_Layout ex_timeseries (Some RFC3339))),
     Panic "assignment to entry in nil map").
Proof.
  apply (Upsert_request_nil_query_panics (H := ex_collaborators_bounds)
           ex_config_bounds None ex_limiter ex_request_nil_query
           {| fc_Client := None; fc_Method := "GET";
              fc_URL := {| Host := "api.exchange.coinbase.com";
                           Path := "/products/BTC-USD/candles";
                           RawQuery := RawQuery ex_base_url_bounds |};
              fc_RateLimiter := ex_limiter |}
           ex_timeseries "2023-01-01T00:00:00Z" "2023-01-01T02:00:00Z"
           1672531200000000000 1672538400000000000).
  - reflexivity.
  - reflexivity.
  - reflexivity.
  - reflexivity.
  - reflexivity.
  - reflexivity.
  - reflexivity.
  - lia.
  - simpl. lia.
  - unfold int32_range. simpl. lia.
  - vm_compute. lia.
Defined.
